(** * Conway's Game of Life board: a shallow embedding of
      [include/conways_game_of_life/board.hpp]

    The class template [ConwaysGameOfLife<C, R>] owns two heap vectors of
    [CellState] (through [grid1_] and [grid2_]) and two further shared
    pointers, [current_grid_] and [next_grid_], that alias them.  The
    embedding keeps that shape: the two vectors are the two list fields of
    the record below, and the aliasing pointers are values of type [buffer]
    naming the vector they point to.

    Member functions are computations in a state monad over the object,
    with failure standing for undefined behaviour ([operator[]] outside the
    vector, signed overflow).  [int] values are integers of [Z].  The
    constructor is the first to evaluate the product [C * R] of the template
    arguments and checks it against the range of [int]; on an object it has
    returned every other [int] expression of the class is bounded by that
    product, and is computed in [Z]. *)

From stdpp Require Import base numbers option list.

Open Scope Z_scope.

(** ** Data *)

(** [enum CellState { ON, OFF }]: [ON] is the enumerator of value 0. *)
Inductive CellState : Set := ON | OFF.

#[global] Instance CellState_eq_dec : EqDecision CellState.
Proof. solve_decision. Defined.

(** The two vectors allocated by the constructor; a shared pointer of the
    class is one of these two names. *)
Inductive buffer : Set := Grid1 | Grid2.

#[global] Instance buffer_eq_dec : EqDecision buffer.
Proof. solve_decision. Defined.

Record Board : Type := mkBoard {
  size_ : Z * Z;
  grid1_ : list CellState;
  grid2_ : list CellState;
  grid_ : bool;
  current_grid_ : buffer;
  next_grid_ : buffer;
  pause_ : bool
}.

(** [*p] for a shared pointer [p]. *)
Definition deref (s : Board) (p : buffer) : list CellState :=
  match p with Grid1 => grid1_ s | Grid2 => grid2_ s end.

(** Replace the contents of the vector [p] points to. *)
Definition store (s : Board) (p : buffer) (l : list CellState) : Board :=
  match p with
  | Grid1 => mkBoard (size_ s) l (grid2_ s) (grid_ s)
                     (current_grid_ s) (next_grid_ s) (pause_ s)
  | Grid2 => mkBoard (size_ s) (grid1_ s) l (grid_ s)
                     (current_grid_ s) (next_grid_ s) (pause_ s)
  end.

(** ** The monad of member functions *)

Definition M (A : Type) : Type := Board -> option (A * Board).

Definition ret {A} (a : A) : M A := fun s => Some (a, s).

Definition bind {A B} (m : M A) (k : A -> M B) : M B :=
  fun s => match m s with
           | Some (a, s') => k a s'
           | None => None
           end.

Definition gets {A} (f : Board -> A) : M A := fun s => Some (f s, s).

Definition modify (f : Board -> Board) : M unit := fun s => Some (tt, f s).

Declare Scope board_scope.
Delimit Scope board_scope with board.
Notation "x <- m ;; k" := (bind m (fun x => k))
  (at level 100, m at next level, k at level 200, right associativity) : board_scope.
Notation "m ;;; k" := (bind m (fun _ => k))
  (at level 100, k at level 200, right associativity) : board_scope.
Open Scope board_scope.

(** Reading element [i] of the vector behind [p] with [operator[]]; outside
    the vector the behaviour is undefined. *)
Definition vec_get (p : buffer) (i : Z) : M CellState :=
  fun s =>
    if 0 <=? i then
      match deref s p !! Z.to_nat i with
      | Some c => Some (c, s)
      | None => None
      end
    else None.

(** Assigning [v] to element [i] of the vector behind [p]; outside the
    vector the behaviour is undefined. *)
Definition vec_set (p : buffer) (i : Z) (v : CellState) : M unit :=
  fun s =>
    if (0 <=? i) && (i <? Z.of_nat (length (deref s p))) then
      Some (tt, store s p (<[Z.to_nat i := v]> (deref s p)))
    else None.

(** [for (int i = lo; i < hi; i++) body], the body threading the local
    variables it assigns as an accumulator. *)
Fixpoint for_iter {A} (n : nat) (i : Z) (body : Z -> A -> M A) (a : A) : M A :=
  match n with
  | O => ret a
  | S n' => a' <- body i a ;; for_iter n' (i + 1) body a'
  end.

Definition for_range {A} (lo hi : Z) (body : Z -> A -> M A) (a : A) : M A :=
  for_iter (Z.to_nat (hi - lo)) lo body a.

(** The range of [int]. *)
Definition INT_MAX : Z := 2147483647.
Definition INT_MIN : Z := -2147483648.

(** [a * b] on [int]: a product outside the range of [int] is a signed
    overflow, whose behaviour is undefined. *)
Definition int_mul (a b : Z) : option Z :=
  if (INT_MIN <=? a * b) && (a * b <=? INT_MAX) then Some (a * b) else None.

(** Modelled from the spec: [convert_indices] is declared in
    [conways_game_of_life/util.hpp], which is not among the sources; the
    grid is "indexed by [index = x + y*C]". *)
Definition convert_indices (x y c : Z) : Z := x + y * c.

(** ** The class [ConwaysGameOfLife<C, R>] *)

Section ConwaysGameOfLife.

Variables C R : Z.

Definition getSize : M (Z * Z) := gets size_.

Definition getGrid : M buffer := gets current_grid_.

Definition togglePause : M unit :=
  modify (fun s => mkBoard (size_ s) (grid1_ s) (grid2_ s) (grid_ s)
                           (current_grid_ s) (next_grid_ s) (negb (pause_ s))).

Definition setCell (x y : Z) : M unit :=
  let index := convert_indices x y C in
  cur <- gets current_grid_ ;;
  vec_set cur index ON.

Definition unsetCell (x y : Z) : M unit :=
  let index := convert_indices x y C in
  cur <- gets current_grid_ ;;
  vec_set cur index OFF.

Definition clear : M unit :=
  for_range 0 (C * R)
    (fun i _ => vec_set Grid1 i OFF ;;; vec_set Grid2 i OFF) tt.

(** The constructor.  [C*R] is a product of two [int]s, undefined when it
    overflows.  [std::vector<CellState>(n)] value-initialises its elements,
    that is to the enumerator of value 0; a negative [n] converts to a size
    no vector can have and the allocation throws. *)
Definition ConwaysGameOfLife : option Board :=
  match int_mul C R with
  | None => None
  | Some n =>
      if n <? 0 then None
      else
        let grid1 := replicate (Z.to_nat n) ON in
        let grid2 := replicate (Z.to_nat n) ON in
        let pause := true in
        let grid := false in
        let current_grid := if grid then Grid1 else Grid2 in
        let next_grid := if grid then Grid2 else Grid1 in
        match clear (mkBoard (C, R) grid1 grid2 grid current_grid next_grid pause) with
        | Some (_, s) => Some s
        | None => None
        end
  end.

Definition countAliveNeighbors (x y : Z) : M Z :=
  let alive := 0 in
  for_range (-1) (1 + 1)
    (fun x_off alive =>
       let neighbor_x := x + x_off in
       let neighbor_x := if x + x_off <? 0 then C - 1 else neighbor_x in
       let neighbor_x := if x + x_off >=? C then 0 else neighbor_x in
       for_range (-1) (1 + 1)
         (fun y_off alive =>
            let neighbor_y := y + y_off in
            let neighbor_y := if y + y_off <? 0 then R - 1 else neighbor_y in
            let neighbor_y := if y + y_off >=? R then 0 else neighbor_y in
            if (x_off =? 0) && (y_off =? 0) then ret alive
            else
              let neighbor_index := convert_indices neighbor_x neighbor_y C in
              cur <- gets current_grid_ ;;
              c <- vec_get cur neighbor_index ;;
              if decide (c = ON) then ret (alive + 1) else ret alive)
         alive)
    alive.

(** The body of the two nested loops of [update]. *)
Definition update_cell (x y : Z) : M unit :=
  let index := convert_indices x y C in
  alive <- countAliveNeighbors x y ;;
  cur <- gets current_grid_ ;;
  nxt <- gets next_grid_ ;;
  c <- vec_get cur index ;;
  vec_set nxt index c ;;;
  c <- vec_get cur index ;;
  if decide (c = OFF) then
    if alive =? 3 then vec_set nxt index ON else ret tt
  else if decide (c = ON) then
    if (alive <=? 1) || (alive >=? 4) then vec_set nxt index OFF else ret tt
  else ret tt.

Definition swap_grids (s : Board) : Board :=
  let grid := negb (grid_ s) in
  mkBoard (size_ s) (grid1_ s) (grid2_ s) grid
          (if grid then Grid1 else Grid2)
          (if grid then Grid2 else Grid1)
          (pause_ s).

Definition update : M unit :=
  paused <- gets pause_ ;;
  if paused then ret tt
  else
    for_range 0 C
      (fun x _ => for_range 0 R (fun y _ => update_cell x y) tt) tt ;;;
    modify swap_grids.

End ConwaysGameOfLife.

Arguments getSize : simpl never.
Arguments update : simpl never.
Arguments clear : simpl never.

(** ** Specification-level notions *)

(** Pure counterpart of [for_iter], for loops whose body leaves the object
    alone. *)
Fixpoint iter_pure {A} (n : nat) (i : Z) (f : Z -> A -> A) (a : A) : A :=
  match n with
  | O => a
  | S n' => iter_pure n' (i + 1) f (f i a)
  end.

Section Specification.

Variables C R : Z.

(** A client calling [update] [n] times in a row. *)
Fixpoint steps (n : nat) : M unit :=
  match n with
  | O => ret tt
  | S n' => update C R ;;; steps n'
  end.

(** The class invariant: what the constructor establishes and every member
    function keeps. *)
Definition wf (s : Board) : Prop :=
  size_ s = (C, R) /\
  length (grid1_ s) = Z.to_nat (C * R) /\
  length (grid2_ s) = Z.to_nat (C * R) /\
  current_grid_ s = (if grid_ s then Grid1 else Grid2) /\
  next_grid_ s = (if grid_ s then Grid2 else Grid1).

(** The cell at column [x], row [y] of a grid. *)
Definition cell (g : list CellState) (x y : Z) : option CellState :=
  g !! Z.to_nat (convert_indices x y C).

(** 1 when the cell at [(x, y)] is alive, 0 otherwise. *)
Definition alive_at (g : list CellState) (x y : Z) : Z :=
  if decide (cell g x y = Some ON) then 1 else 0.

(** The 8 offset pairs of [{-1,0,1}² \ {(0,0)}]. *)
Definition neighbor_offsets : list (Z * Z) :=
  [(-1, -1); (-1, 0); (-1, 1); (0, -1); (0, 1); (1, -1); (1, 0); (1, 1)].

(** Toroidal neighbour count, in the words of the specification: for each
    offset pair, [nx = (x+dx) mod C] and [ny = (y+dy) mod R]; count the
    neighbours that are alive. *)
Definition toroidal_count (g : list CellState) (x y : Z) : Z :=
  foldr (fun d acc => alive_at g ((x + d.1) `mod` C) ((y + d.2) `mod` R) + acc)
        0 neighbor_offsets.

(** The value [update] leaves in the next grid for a cell of state [c] with
    [alive] live neighbours, read off the assignments of its loop body. *)
Definition next_state (c : CellState) (alive : Z) : CellState :=
  match c with
  | OFF => if alive =? 3 then ON else OFF
  | ON => if (alive <=? 1) || (alive >=? 4) then OFF else ON
  end.

(** The next state of the cell at [(x, y)] of grid [g], when there is one. *)
Definition next_cell (g : list CellState) (x y : Z) : option CellState :=
  (fun c => next_state c (toroidal_count g x y)) <$> cell g x y.

(** The next generation of a whole grid. *)
Definition next_gen (g : list CellState) : list CellState :=
  imap (fun i c => next_state c (toroidal_count g (Z.of_nat i `mod` C)
                                                 (Z.of_nat i `div` C))) g.

(** The object after [clear]. *)
Definition cleared (s : Board) : Board :=
  mkBoard (size_ s)
          (replicate (Z.to_nat (C * R)) OFF) (replicate (Z.to_nat (C * R)) OFF)
          (grid_ s) (current_grid_ s) (next_grid_ s) (pause_ s).

(** The object the constructor leaves behind. *)
Definition constructed : Board :=
  mkBoard (C, R)
          (replicate (Z.to_nat (C * R)) OFF) (replicate (Z.to_nat (C * R)) OFF)
          false Grid2 Grid1 true.

(** The object after an unpaused [update]: the next grid holds the next
    generation of the current one and the two pointers have traded places. *)
Definition stepped (s : Board) : Board :=
  swap_grids (store s (next_grid_ s) (next_gen (deref s (current_grid_ s)))).

(** What a member function that assigns [v] to the cell at [(x, y)] of the
    current grid, and does nothing else, relates: the object before and the
    object after. *)
Definition cell_assigned (s s' : Board) (x y : Z) (v : CellState) : Prop :=
  cell (deref s' (current_grid_ s)) x y = Some v /\
  (forall x' y', 0 <= x' < C -> 0 <= y' < R -> (x', y') <> (x, y) ->
     cell (deref s' (current_grid_ s)) x' y'
     = cell (deref s (current_grid_ s)) x' y') /\
  deref s' (next_grid_ s) = deref s (next_grid_ s) /\
  pause_ s' = pause_ s /\
  grid_ s' = grid_ s /\
  current_grid_ s' = current_grid_ s /\
  next_grid_ s' = next_grid_ s.

(** The object after [n] unpaused calls of [update]. *)
Fixpoint generations (n : nat) (s : Board) : Board :=
  match n with
  | O => s
  | S n' => generations n' (stepped s)
  end.

(** The [n]-th generation after a grid. *)
Fixpoint next_gens (n : nat) (g : list CellState) : list CellState :=
  match n with
  | O => g
  | S n' => next_gens n' (next_gen g)
  end.

(** The grid of [C * R] cells whose live cells are those listed. *)
Definition grid_of_cells (cells : list (Z * Z)) : list CellState :=
  foldr (fun p g => <[Z.to_nat (convert_indices p.1 p.2 C) := ON]> g)
        (replicate (Z.to_nat (C * R)) OFF) cells.

(** A pattern moved by [(dx, dy)] on the torus. *)
Definition translate (dx dy : Z) (cells : list (Z * Z)) : list (Z * Z) :=
  map (fun p => ((p.1 + dx) `mod` C, (p.2 + dy) `mod` R)) cells.

(** Whether grid [g'] is grid [g] moved by [(dx, dy)] on the torus: the
    cell of [g] at [(x, y)] is found in [g'] at [((x+dx) mod C, (y+dy) mod R)]. *)
Definition translated_by (dx dy : Z) (g g' : list CellState) : bool :=
  forallb (fun x =>
    forallb (fun y =>
      bool_decide (cell g' ((x + dx) `mod` C) ((y + dy) `mod` R) = cell g x y))
      (seqZ 0 R))
    (seqZ 0 C).

(** A freshly constructed board, seeded through [setCell] and unpaused
    through [togglePause], as a client of the class sets a pattern up. *)
Definition seeded (cells : list (Z * Z)) : option Board :=
  match ConwaysGameOfLife C R with
  | Some s =>
      match (foldr (fun p k => setCell C p.1 p.2 ;;; k) (ret tt) cells ;;;
             togglePause) s with
      | Some (_, s') => Some s'
      | None => None
      end
  | None => None
  end.

End Specification.

Arguments toroidal_count : simpl never.
Arguments next_gen : simpl never.

(** The classic glider, heading towards growing [x] and [y]. *)
Definition glider : list (Z * Z) := [(1, 0); (2, 1); (0, 2); (1, 2); (2, 2)].

(** The 2x2 block. *)
Definition block : list (Z * Z) := [(0, 0); (1, 0); (0, 1); (1, 1)].

(** The board a client gets by constructing an 8x8 board, setting the cells
    of the glider and toggling the pause. *)
Definition glider_board : Board :=
  mkBoard (8, 8) (replicate 64 OFF) (grid_of_cells 8 8 glider)
          false Grid2 Grid1 false.

(** The same for a block in the middle of a 10x10 board. *)
Definition block_board : Board :=
  mkBoard (10, 10) (replicate 100 OFF)
          (grid_of_cells 10 10 (translate 10 10 4 4 block))
          false Grid2 Grid1 false.

(** A running 1x1 board whose cell is alive. *)
Definition lone_cell_board : Board :=
  mkBoard (1, 1) [OFF] [ON] false Grid2 Grid1 false.

(** A running 3x3 board holding a vertical blinker, with stale cells in the
    grid that is not current. *)
Definition blinker_board : Board :=
  mkBoard (3, 3)
          [ON; ON; OFF; OFF; OFF; ON; OFF; ON; OFF]
          [OFF; ON; OFF; OFF; ON; OFF; OFF; ON; OFF]
          false Grid2 Grid1 false.

(** The same blinker on a board whose vectors have the other roles and whose
    other vector is empty of live cells. *)
Definition blinker_board' : Board :=
  mkBoard (3, 3)
          [OFF; ON; OFF; OFF; ON; OFF; OFF; ON; OFF]
          (replicate 9 OFF)
          true Grid1 Grid2 false.

(** A running 2x3 board all of whose cells are alive. *)
Definition full_board : Board :=
  mkBoard (2, 3) (replicate 6 OFF) (replicate 6 ON) false Grid2 Grid1 false.

(** A running board without columns. *)
Definition empty_board : Board :=
  mkBoard (0, 3) [] [] false Grid2 Grid1 false.

(** A running 3x3 board with the blinker of [blinker_board] moved by
    [(1, 2)]. *)
Definition shifted_blinker_board : Board :=
  mkBoard (3, 3)
          (replicate 9 OFF)
          [OFF; OFF; ON; OFF; OFF; ON; OFF; OFF; ON]
          false Grid2 Grid1 false.

(** A running 3x3 board showing an empty grid, with the cells of a blinker
    left in the vector that is not current. *)
Definition stale_board : Board :=
  mkBoard (3, 3)
          [OFF; ON; OFF; OFF; ON; OFF; OFF; ON; OFF]
          (replicate 9 OFF)
          false Grid2 Grid1 false.

(** ** Clients of the class *)

(** The calls a client can make on the object. *)
Inductive call : Set :=
  | SetCell (x y : Z)
  | UnsetCell (x y : Z)
  | Clear
  | TogglePause
  | Update
  | GetSize
  | GetGrid.

Section Clients.

Variables C R : Z.

(** One call, its result dropped. *)
Definition do_call (c : call) : M unit :=
  match c with
  | SetCell x y => setCell C x y
  | UnsetCell x y => unsetCell C x y
  | Clear => clear C R
  | TogglePause => togglePause
  | Update => update C R
  | GetSize => _ <- getSize ;; ret tt
  | GetGrid => _ <- getGrid ;; ret tt
  end.

(** A client making the calls of a list, one after the other. *)
Fixpoint run (cs : list call) : M unit :=
  match cs with
  | [] => ret tt
  | c :: cs' => do_call c ;;; run cs'
  end.

(** The precondition of a call: the coordinates it passes are those of a
    cell of the grid. *)
Definition in_range (c : call) : Prop :=
  match c with
  | SetCell x y | UnsetCell x y => 0 <= x < C /\ 0 <= y < R
  | _ => True
  end.

(** Grid [g] moved by [(dx, dy)] on the torus: the cell at [(x, y)] of the
    result is the cell of [g] at [((x-dx) mod C, (y-dy) mod R)]. *)
Definition shift (dx dy : Z) (g : list CellState) : list CellState :=
  imap (fun i _ =>
          default OFF (cell C g ((Z.of_nat i `mod` C - dx) `mod` C)
                                ((Z.of_nat i `div` C - dy) `mod` R))) g.

End Clients.

(** ** The monad and the store *)

Lemma bind_Some {A B} (m : M A) (k : A -> M B) s a s' :
  m s = Some (a, s') -> bind m k s = k a s'.
Proof. intros H. unfold bind. now rewrite H. Qed.

Lemma bind_gets {A B} (f : Board -> A) (k : A -> M B) s :
  bind (gets f) k s = k (f s) s.
Proof. reflexivity. Qed.

Lemma deref_store_eq s p l : deref (store s p l) p = l.
Proof. now destruct p. Qed.

Lemma deref_store_ne s p q l : p <> q -> deref (store s p l) q = deref s q.
Proof. now destruct p, q. Qed.

Lemma store_store s p l l' : store (store s p l) p l' = store s p l'.
Proof. now destruct p. Qed.

Lemma store_deref s p : store s p (deref s p) = s.
Proof. now destruct s, p. Qed.

Lemma store_fields s p l :
  size_ (store s p l) = size_ s /\
  grid_ (store s p l) = grid_ s /\
  current_grid_ (store s p l) = current_grid_ s /\
  next_grid_ (store s p l) = next_grid_ s /\
  pause_ (store s p l) = pause_ s.
Proof. now destruct p. Qed.

Lemma vec_get_Some p i s c :
  0 <= i -> deref s p !! Z.to_nat i = Some c -> vec_get p i s = Some (c, s).
Proof.
  intros Hi Hc. unfold vec_get.
  destruct (Z.leb_spec 0 i); [now rewrite Hc | lia].
Qed.

Lemma vec_set_Some p i v s :
  0 <= i < Z.of_nat (length (deref s p)) ->
  vec_set p i v s = Some (tt, store s p (<[Z.to_nat i := v]> (deref s p))).
Proof.
  intros Hi. unfold vec_set.
  destruct (Z.leb_spec 0 i); [| lia].
  destruct (Z.ltb_spec i (Z.of_nat (length (deref s p)))); [easy | lia].
Qed.

(** ** Loops *)

(** A loop whose body only computes, computes [iter_pure]. *)
Lemma for_iter_pure {A} (f : Z -> A -> A) n i (body : Z -> A -> M A) a s :
  (forall j b, i <= j < i + Z.of_nat n -> body j b s = Some (f j b, s)) ->
  for_iter n i body a s = Some (iter_pure n i f a, s).
Proof.
  revert i a. induction n as [| n IH]; intros i a Hbody; [reflexivity |].
  cbn [for_iter iter_pure].
  rewrite (bind_Some _ _ s (f i a) s) by (apply Hbody; lia).
  apply IH. intros j b Hj. apply Hbody. lia.
Qed.

Lemma iter_pure_3 {A} (f : Z -> A -> A) a :
  iter_pure 3 (-1) f a = f 1 (f 0 (f (-1) a)).
Proof. reflexivity. Qed.

(** Invariant rule for a loop over the object. *)
Lemma for_iter_inv (I : Z -> Board -> Prop) n i (body : Z -> unit -> M unit) s :
  I i s ->
  (forall j t, i <= j < i + Z.of_nat n -> I j t ->
               exists t', body j tt t = Some (tt, t') /\ I (j + 1) t') ->
  exists s', for_iter n i body tt s = Some (tt, s') /\ I (i + Z.of_nat n) s'.
Proof.
  revert i s. induction n as [| n IH]; intros i s Hi Hbody.
  - exists s. split; [reflexivity |]. now replace (i + Z.of_nat 0) with i by lia.
  - destruct (Hbody i s) as (t & Ht & Hit); [lia | assumption |].
    destruct (IH (i + 1) t Hit) as (s' & Hs' & His').
    { intros j u Hj. apply Hbody. lia. }
    exists s'. split.
    + cbn [for_iter]. now rewrite (bind_Some _ _ s tt t Ht).
    + now replace (i + Z.of_nat (S n)) with (i + 1 + Z.of_nat n) by lia.
Qed.

Lemma for_range_inv (I : Z -> Board -> Prop) lo hi (body : Z -> unit -> M unit) s :
  lo <= hi ->
  I lo s ->
  (forall j t, lo <= j < hi -> I j t ->
               exists t', body j tt t = Some (tt, t') /\ I (j + 1) t') ->
  exists s', for_range lo hi body tt s = Some (tt, s') /\ I hi s'.
Proof.
  intros Hle Hlo Hbody. unfold for_range.
  destruct (for_iter_inv I (Z.to_nat (hi - lo)) lo body s Hlo) as (s' & Hs' & His').
  { intros j t Hj. apply Hbody. lia. }
  exists s'. split; [assumption |].
  now replace hi with (lo + Z.of_nat (Z.to_nat (hi - lo))) by lia.
Qed.

(** ** Indexing *)

Section Indexing.

Variables C R : Z.

Lemma convert_indices_range x y :
  0 <= x < C -> 0 <= y < R -> 0 <= convert_indices x y C < C * R.
Proof. unfold convert_indices. nia. Qed.

Lemma convert_indices_mod x y :
  0 <= x < C -> convert_indices x y C `mod` C = x.
Proof.
  intros Hx. unfold convert_indices.
  rewrite Z.mod_add by lia. apply Z.mod_small. lia.
Qed.

Lemma convert_indices_div x y :
  0 <= x < C -> convert_indices x y C `div` C = y.
Proof.
  intros Hx. unfold convert_indices.
  rewrite Z.div_add by lia. rewrite Z.div_small by lia. lia.
Qed.

Lemma convert_indices_inj x y x' y' :
  0 <= x < C -> 0 <= x' < C ->
  convert_indices x y C = convert_indices x' y' C -> x = x' /\ y = y'.
Proof.
  intros Hx Hx' E. assert (0 < C) as HC by lia. split.
  - rewrite <- (convert_indices_mod x y Hx), E. now apply convert_indices_mod.
  - rewrite <- (convert_indices_div x y Hx), E. now apply convert_indices_div.
Qed.

Lemma convert_indices_of_index i :
  0 < C -> 0 <= i < C * R ->
  0 <= i `mod` C < C /\ 0 <= i `div` C < R /\
  convert_indices (i `mod` C) (i `div` C) C = i.
Proof.
  intros HC Hi. split; [apply Z.mod_pos_bound; lia |]. split.
  - split; [apply Z.div_pos; lia |]. apply Z.div_lt_upper_bound; lia.
  - unfold convert_indices. pose proof (Z.div_mod i C). lia.
Qed.

Lemma cell_is_Some (g : list CellState) x y :
  length g = Z.to_nat (C * R) -> 0 <= x < C -> 0 <= y < R ->
  exists c, cell C g x y = Some c.
Proof.
  intros Hlen Hx Hy. apply lookup_lt_is_Some_2.
  pose proof (convert_indices_range x y Hx Hy). lia.
Qed.

(** The two conditional assignments of [countAliveNeighbors] wrap a
    coordinate moved by one step the way [mod] does. *)
Lemma wrap_mod n v off :
  0 < n -> 0 <= v < n -> -1 <= off <= 1 ->
  (if v + off >=? n then 0 else if v + off <? 0 then n - 1 else v + off)
  = (v + off) `mod` n.
Proof.
  intros Hn Hv Hoff.
  destruct (Z.geb_spec (v + off) n) as [Hge | Hlt].
  - assert (v + off = n) as -> by lia. now rewrite Z.mod_same by lia.
  - destruct (Z.ltb_spec (v + off) 0) as [Hneg | Hpos].
    + assert (v + off = -1) as -> by lia.
      apply (Z.mod_unique_pos _ _ (-1)); lia.
    + symmetry. apply Z.mod_small. lia.
Qed.

End Indexing.

(** ** Counting neighbours *)

Section Counting.

Variables C R : Z.
Hypothesis HC : 0 < C.
Hypothesis HR : 0 < R.

(** [countAliveNeighbors] reads the current grid only, never fails on a
    cell of the grid, and returns the toroidal count. *)
Lemma countAliveNeighbors_spec s x y :
  length (deref s (current_grid_ s)) = Z.to_nat (C * R) ->
  0 <= x < C -> 0 <= y < R ->
  countAliveNeighbors C R x y s
  = Some (toroidal_count C R (deref s (current_grid_ s)) x y, s).
Proof.
  intros Hlen Hx Hy. unfold countAliveNeighbors, for_range.
  set (g := deref s (current_grid_ s)) in *.
  rewrite (for_iter_pure
             (fun x_off a =>
                iter_pure 3 (-1)
                  (fun y_off a =>
                     if (x_off =? 0) && (y_off =? 0) then a
                     else a + alive_at C g ((x + x_off) `mod` C)
                                           ((y + y_off) `mod` R)) a)).
  - f_equal. f_equal. change (Z.to_nat (1 + 1 - -1)) with 3%nat.
    rewrite iter_pure_3. cbv beta. rewrite !iter_pure_3. cbv beta.
    unfold toroidal_count, neighbor_offsets.
    cbn [foldr fst snd Z.eqb Pos.eqb andb]. lia.
  - intros j a Hj. change (Z.to_nat (1 + 1 - -1)) with 3%nat in *.
    apply for_iter_pure. intros k b Hk.
    rewrite (wrap_mod C x j), (wrap_mod R y k) by lia.
    destruct ((j =? 0) && (k =? 0)); [reflexivity |].
    assert (0 <= (x + j) `mod` C < C) as Hx' by (apply Z.mod_pos_bound; lia).
    assert (0 <= (y + k) `mod` R < R) as Hy' by (apply Z.mod_pos_bound; lia).
    destruct (cell_is_Some C R g _ _ Hlen Hx' Hy') as [c Hc].
    pose proof (convert_indices_range C R _ _ Hx' Hy') as Hidx.
    rewrite bind_gets.
    rewrite (bind_Some _ _ s c s) by (apply vec_get_Some; [lia | exact Hc]).
    unfold alive_at. rewrite Hc.
    destruct c; repeat case_decide; try congruence; try reflexivity.
    unfold ret. do 2 f_equal. lia.
Qed.

End Counting.

(** ** One generation *)

Section Generation.

Variables C R : Z.
Hypothesis HC : 0 < C.
Hypothesis HR : 0 < R.

#[local] Abbreviation idx x y := (Z.to_nat (convert_indices x y C)).

(** The loop body of [update] at an in-range cell: one cell of the next
    grid receives its next state, nothing else changes. *)
Lemma update_cell_spec s x y c :
  current_grid_ s <> next_grid_ s ->
  length (deref s (current_grid_ s)) = Z.to_nat (C * R) ->
  length (deref s (next_grid_ s)) = Z.to_nat (C * R) ->
  0 <= x < C -> 0 <= y < R ->
  cell C (deref s (current_grid_ s)) x y = Some c ->
  update_cell C R x y s
  = Some (tt, store s (next_grid_ s)
                (<[idx x y := next_state c
                     (toroidal_count C R (deref s (current_grid_ s)) x y)]>
                   (deref s (next_grid_ s)))).
Proof.
  intros Hne Hcur Hnxt Hx Hy Hc. unfold update_cell.
  pose proof (convert_indices_range C R x y Hx Hy) as Hidx.
  rewrite (bind_Some _ _ s _ s (countAliveNeighbors_spec C R HC HR s x y Hcur Hx Hy)).
  rewrite !bind_gets.
  set (n := toroidal_count C R (deref s (current_grid_ s)) x y).
  rewrite (bind_Some _ _ s c s) by (apply vec_get_Some; [lia | exact Hc]).
  assert (0 <= convert_indices x y C
          < Z.of_nat (length (deref s (next_grid_ s)))) as Hin by lia.
  rewrite (bind_Some _ _ s tt _ (vec_set_Some _ _ c s Hin)).
  set (s1 := store s (next_grid_ s) _).
  assert (deref s1 (current_grid_ s) = deref s (current_grid_ s)) as Hcur1
    by (apply deref_store_ne; congruence).
  assert (deref s1 (next_grid_ s)
          = <[idx x y := c]> (deref s (next_grid_ s))) as Hnxt1
    by apply deref_store_eq.
  rewrite (bind_Some _ _ s1 c s1)
    by (apply vec_get_Some; [lia | rewrite Hcur1; exact Hc]).
  assert (forall v,
    vec_set (next_grid_ s) (convert_indices x y C) v s1
    = Some (tt, store s (next_grid_ s) (<[idx x y := v]> (deref s (next_grid_ s)))))
    as Hset.
  { intros v. rewrite vec_set_Some by (rewrite Hnxt1, length_insert; lia).
    rewrite Hnxt1, list_insert_insert_eq. unfold s1. now rewrite store_store. }
  destruct c; cbn [next_state]; repeat case_decide; try congruence.
  - destruct ((n <=? 1) || (n >=? 4)); [apply Hset | reflexivity].
  - destruct (n =? 3); [apply Hset | reflexivity].
Qed.

(** One more cell written: the cells written so far keep their value. *)
Lemma update_cell_inv s l x0 y0 (P : Z -> Z -> Prop) :
  current_grid_ s <> next_grid_ s ->
  length (deref s (current_grid_ s)) = Z.to_nat (C * R) ->
  length l = Z.to_nat (C * R) ->
  0 <= x0 < C -> 0 <= y0 < R ->
  (forall x y, 0 <= x < C -> 0 <= y < R -> P x y ->
               cell C l x y = next_cell C R (deref s (current_grid_ s)) x y) ->
  exists l',
    update_cell C R x0 y0 (store s (next_grid_ s) l)
    = Some (tt, store s (next_grid_ s) l') /\
    length l' = Z.to_nat (C * R) /\
    forall x y, 0 <= x < C -> 0 <= y < R -> P x y \/ (x = x0 /\ y = y0) ->
                cell C l' x y = next_cell C R (deref s (current_grid_ s)) x y.
Proof.
  intros Hne Hcur Hl Hx0 Hy0 HP.
  set (g := deref s (current_grid_ s)) in *.
  set (t := store s (next_grid_ s) l).
  destruct (store_fields s (next_grid_ s) l) as (_ & _ & Ec & En & _).
  fold t in Ec, En.
  assert (deref t (current_grid_ t) = g) as Eg
    by (rewrite Ec; apply deref_store_ne; congruence).
  assert (deref t (next_grid_ t) = l) as El
    by (rewrite En; apply deref_store_eq).
  destruct (cell_is_Some C R g x0 y0 Hcur Hx0 Hy0) as [c Hc].
  pose proof (convert_indices_range C R x0 y0 Hx0 Hy0) as Hidx.
  exists (<[idx x0 y0 := next_state c (toroidal_count C R g x0 y0)]> l).
  split; [| split].
  - rewrite (update_cell_spec t x0 y0 c); rewrite ?Eg, ?El, ?Ec, ?En; try easy.
    unfold t. now rewrite store_store.
  - now rewrite length_insert.
  - intros x y Hx Hy [Hxy | [-> ->]]; unfold cell.
    + destruct (decide (idx x0 y0 = idx x y)) as [E | E].
      * pose proof (convert_indices_range C R x y Hx Hy).
        apply Z2Nat.inj in E; [| lia | lia].
        apply convert_indices_inj in E as [-> ->]; [| easy | easy].
        rewrite list_lookup_insert_eq by lia.
        unfold next_cell. now rewrite Hc.
      * rewrite list_lookup_insert_ne by exact E. now apply HP.
    + rewrite list_lookup_insert_eq by lia. unfold next_cell. now rewrite Hc.
Qed.

(** The two nested loops of [update] write the next state of every cell
    into the next grid and leave the rest of the object alone. *)
Lemma update_loops_spec s :
  current_grid_ s <> next_grid_ s ->
  length (deref s (current_grid_ s)) = Z.to_nat (C * R) ->
  length (deref s (next_grid_ s)) = Z.to_nat (C * R) ->
  exists l,
    for_range 0 C
      (fun x _ => for_range 0 R (fun y _ => update_cell C R x y) tt) tt s
    = Some (tt, store s (next_grid_ s) l) /\
    length l = Z.to_nat (C * R) /\
    forall x y, 0 <= x < C -> 0 <= y < R ->
                cell C l x y = next_cell C R (deref s (current_grid_ s)) x y.
Proof.
  intros Hne Hcur Hnxt.
  set (g := deref s (current_grid_ s)) in *.
  set (written := fun (P : Z -> Z -> Prop) (t : Board) =>
    exists l, t = store s (next_grid_ s) l /\ length l = Z.to_nat (C * R) /\
      forall x y, 0 <= x < C -> 0 <= y < R -> P x y ->
                  cell C l x y = next_cell C R g x y).
  destruct (for_range_inv (fun x0 => written (fun x _ => x < x0)) 0 C
              (fun x _ => for_range 0 R (fun y _ => update_cell C R x y) tt) s)
    as (s' & Hs' & l & -> & Hl & Hall).
  - lia.
  - exists (deref s (next_grid_ s)). rewrite store_deref.
    repeat split; [assumption | intros; lia].
  - intros x0 t Hx0 Ht.
    destruct (for_range_inv
                (fun y0 => written (fun x y => x < x0 \/ (x = x0 /\ y < y0))) 0 R
                (fun y _ => update_cell C R x0 y) t)
      as (t' & Ht' & l' & -> & Hl' & Hall').
    + lia.
    + destruct Ht as (l & -> & Hl & Hall). exists l.
      repeat split; [assumption |]. intros x y Hx Hy Hxy. apply Hall; lia.
    + intros y0 u Hy0 (l & -> & Hl & Hall).
      destruct (update_cell_inv s l x0 y0 _ Hne Hcur Hl Hx0 Hy0 Hall)
        as (l' & E & Hl' & Hall').
      exists (store s (next_grid_ s) l'). split; [exact E |].
      exists l'. repeat split; [assumption |].
      intros x y Hx Hy Hxy. apply Hall'; lia.
    + exists (store s (next_grid_ s) l'). split; [exact Ht' |].
      exists l'. repeat split; [assumption |].
      intros x y Hx Hy Hxy. apply Hall'; lia.
  - exists l. repeat split; [exact Hs' | assumption |].
    intros x y Hx Hy. apply Hall; lia.
Qed.

(** A grid that agrees cell by cell with the next generation is the next
    generation. *)
Lemma next_gen_unique (g l : list CellState) :
  length g = Z.to_nat (C * R) ->
  length l = Z.to_nat (C * R) ->
  (forall x y, 0 <= x < C -> 0 <= y < R -> cell C l x y = next_cell C R g x y) ->
  l = next_gen C R g.
Proof.
  intros Hg Hl Hall. apply list_eq. intros i.
  unfold next_gen. rewrite list_lookup_imap.
  destruct (decide (i < length g)%nat) as [Hi | Hi].
  - destruct (convert_indices_of_index C R (Z.of_nat i) HC) as (Hx & Hy & E);
      [lia |].
    specialize (Hall _ _ Hx Hy). unfold next_cell, cell in Hall.
    rewrite E, Nat2Z.id in Hall. exact Hall.
  - rewrite !lookup_ge_None_2 by lia. reflexivity.
Qed.

Lemma next_gen_length (g : list CellState) :
  length (next_gen C R g) = length g.
Proof. unfold next_gen. apply length_imap. Qed.

Lemma next_gen_cell (g : list CellState) x y :
  0 <= x < C -> 0 <= y < R ->
  cell C (next_gen C R g) x y = next_cell C R g x y.
Proof.
  intros Hx Hy. unfold cell, next_gen. rewrite list_lookup_imap.
  pose proof (convert_indices_range C R x y Hx Hy).
  rewrite Z2Nat.id by lia.
  now rewrite convert_indices_mod, convert_indices_div by lia.
Qed.

Lemma wf_pointers s : wf C R s -> current_grid_ s <> next_grid_ s.
Proof. intros (_ & _ & _ & -> & ->). now destruct (grid_ s). Qed.

Lemma wf_length s p : wf C R s -> length (deref s p) = Z.to_nat (C * R).
Proof. intros (_ & H1 & H2 & _). now destruct p. Qed.

(** An unpaused [update] in closed form: the next grid receives the next
    generation of the current one, then the two pointers trade places. *)
Lemma update_spec s :
  wf C R s -> pause_ s = false ->
  update C R s
  = Some (tt, swap_grids
                (store s (next_grid_ s)
                   (next_gen C R (deref s (current_grid_ s))))).
Proof.
  intros Hwf Hp. unfold update. rewrite bind_gets, Hp.
  destruct (update_loops_spec s (wf_pointers s Hwf)
              (wf_length s _ Hwf) (wf_length s _ Hwf)) as (l & E & Hl & Hall).
  rewrite (bind_Some _ _ s tt _ E).
  rewrite (next_gen_unique _ l (wf_length s _ Hwf) Hl Hall). reflexivity.
Qed.

Lemma update_paused s : pause_ s = true -> update C R s = Some (tt, s).
Proof. intros Hp. unfold update. now rewrite bind_gets, Hp. Qed.

Lemma wf_store s p l :
  wf C R s -> length l = Z.to_nat (C * R) -> wf C R (store s p l).
Proof.
  intros (H0 & H1 & H2 & H3 & H4) Hl. now destruct p.
Qed.

Lemma wf_swap_grids s : wf C R s -> wf C R (swap_grids s).
Proof. intros (H0 & H1 & H2 & H3 & H4). now repeat split. Qed.

End Generation.

(** ** Clearing and construction *)

Section Clearing.

Variables C R : Z.

Lemma all_OFF_replicate (l : list CellState) n :
  length l = n -> (forall j, (j < n)%nat -> l !! j = Some OFF) ->
  l = replicate n OFF.
Proof.
  intros Hl Hall. apply list_eq. intros j.
  destruct (decide (j < n)%nat) as [Hj | Hj].
  - rewrite Hall by exact Hj. symmetry. now apply lookup_replicate_2.
  - rewrite lookup_ge_None_2 by lia. symmetry.
    apply lookup_ge_None_2. rewrite length_replicate. lia.
Qed.

(** [clear] never leaves the two vectors and turns every cell of both off. *)
Lemma clear_spec s :
  0 <= C * R ->
  length (grid1_ s) = Z.to_nat (C * R) ->
  length (grid2_ s) = Z.to_nat (C * R) ->
  clear C R s = Some (tt, cleared C R s).
Proof.
  intros HCR H1 H2. unfold clear.
  set (I := fun (i : Z) (t : Board) =>
    size_ t = size_ s /\ grid_ t = grid_ s /\
    current_grid_ t = current_grid_ s /\ next_grid_ t = next_grid_ s /\
    pause_ t = pause_ s /\
    length (grid1_ t) = Z.to_nat (C * R) /\
    length (grid2_ t) = Z.to_nat (C * R) /\
    forall j, (j < Z.to_nat i)%nat ->
              grid1_ t !! j = Some OFF /\ grid2_ t !! j = Some OFF).
  destruct (for_range_inv I 0 (C * R)
              (fun i _ => vec_set Grid1 i OFF ;;; vec_set Grid2 i OFF) s)
    as (s' & E & Hs'); [exact HCR | | |].
  - unfold I. repeat split; try assumption; lia.
  - intros i t Hi (E1 & E2 & E3 & E4 & E5 & L1 & L2 & Hall).
    destruct t as [sz g1 g2 gr cu nx pa]. cbn in *.
    assert (0 <= i < Z.of_nat (length g1)) as Hi1 by lia.
    assert (0 <= i < Z.of_nat (length g2)) as Hi2 by lia.
    rewrite (bind_Some _ _ _ tt _
               (vec_set_Some Grid1 i OFF (mkBoard sz g1 g2 gr cu nx pa) Hi1)).
    cbn [deref store grid1_ grid2_ size_ grid_ current_grid_ next_grid_ pause_].
    rewrite (vec_set_Some Grid2 i OFF) by exact Hi2.
    eexists. split; [reflexivity |].
    unfold I. cbn. rewrite !length_insert.
    repeat split; try assumption.
    + destruct (decide (j = Z.to_nat i)) as [-> | Hj].
      * apply list_lookup_insert_eq. lia.
      * rewrite list_lookup_insert_ne by congruence. apply Hall. lia.
    + destruct (decide (j = Z.to_nat i)) as [-> | Hj].
      * apply list_lookup_insert_eq. lia.
      * rewrite list_lookup_insert_ne by congruence. apply Hall. lia.
  - rewrite E. do 2 f_equal.
    destruct Hs' as (E1 & E2 & E3 & E4 & E5 & L1 & L2 & Hall).
    destruct s' as [sz g1 g2 gr cu nx pa]. unfold cleared. cbn in *. subst.
    f_equal; apply all_OFF_replicate; try assumption; intros j Hj; now apply Hall.
Qed.

Lemma int_mul_Some a b :
  INT_MIN <= a * b <= INT_MAX -> int_mul a b = Some (a * b).
Proof.
  intros H. unfold int_mul.
  destruct (Z.leb_spec INT_MIN (a * b)); [| lia].
  destruct (Z.leb_spec (a * b) INT_MAX); [reflexivity | lia].
Qed.

Lemma ConwaysGameOfLife_spec :
  0 <= C * R <= INT_MAX -> ConwaysGameOfLife C R = Some (constructed C R).
Proof.
  intros HCR. unfold ConwaysGameOfLife.
  rewrite int_mul_Some by (unfold INT_MIN; lia).
  destruct (Z.ltb_spec (C * R) 0); [lia |].
  rewrite clear_spec; [reflexivity | lia | |]; cbn; apply length_replicate.
Qed.

Lemma wf_constructed : wf C R (constructed C R).
Proof. repeat split; cbn; apply length_replicate. Qed.

Lemma wf_cleared s : wf C R s -> wf C R (cleared C R s).
Proof.
  intros (H0 & H1 & H2 & H3 & H4).
  repeat split; try assumption; cbn; apply length_replicate.
Qed.

End Clearing.

(** ** Successive generations *)

Section Generations.

Variables C R : Z.
Hypothesis HC : 0 < C.
Hypothesis HR : 0 < R.

Lemma update_stepped s :
  wf C R s -> pause_ s = false -> update C R s = Some (tt, stepped C R s).
Proof. intros Hwf Hp. now apply update_spec. Qed.

Lemma stepped_wf s : wf C R s -> wf C R (stepped C R s).
Proof.
  intros Hwf. unfold stepped. apply wf_swap_grids, wf_store; [assumption |].
  rewrite next_gen_length. now apply wf_length.
Qed.

Lemma stepped_pause s : pause_ (stepped C R s) = pause_ s.
Proof.
  unfold stepped, swap_grids. cbn.
  now destruct (store_fields s (next_grid_ s)
                  (next_gen C R (deref s (current_grid_ s)))) as (_ & _ & _ & _ & ->).
Qed.

(** The pointers after a step, and what they point to. *)
Lemma stepped_pointers s :
  wf C R s ->
  current_grid_ (stepped C R s) = next_grid_ s /\
  next_grid_ (stepped C R s) = current_grid_ s /\
  deref (stepped C R s) (next_grid_ s)
  = next_gen C R (deref s (current_grid_ s)) /\
  deref (stepped C R s) (current_grid_ s) = deref s (current_grid_ s).
Proof.
  intros (_ & _ & _ & Ec & En). unfold stepped.
  destruct s as [sz g1 g2 gr cu nx pa]. cbn in *. subst.
  now destruct gr.
Qed.

Lemma stepped_current s :
  wf C R s ->
  deref (stepped C R s) (current_grid_ (stepped C R s))
  = next_gen C R (deref s (current_grid_ s)).
Proof.
  intros Hwf. destruct (stepped_pointers s Hwf) as (-> & _ & E & _). exact E.
Qed.

(** [n] unpaused calls of [update] all return, and lead to the [n]-th
    generation. *)
Lemma steps_spec n s :
  wf C R s -> pause_ s = false ->
  steps C R n s = Some (tt, generations C R n s).
Proof.
  revert s. induction n as [| n IH]; intros s Hwf Hp; [reflexivity |].
  cbn [steps generations].
  rewrite (bind_Some _ _ s tt _ (update_stepped s Hwf Hp)).
  apply IH; [now apply stepped_wf | now rewrite stepped_pause].
Qed.

Lemma generations_wf n s : wf C R s -> wf C R (generations C R n s).
Proof.
  revert s. induction n as [| n IH]; intros s Hwf; [assumption |].
  cbn [generations]. now apply IH, stepped_wf.
Qed.

Lemma generations_current n s :
  wf C R s ->
  deref (generations C R n s) (current_grid_ (generations C R n s))
  = next_gens C R n (deref s (current_grid_ s)).
Proof.
  revert s. induction n as [| n IH]; intros s Hwf; [reflexivity |].
  cbn [generations next_gens].
  rewrite IH by now apply stepped_wf. now rewrite stepped_current.
Qed.

(** The pointers trade places at each step, so an even number of steps
    restores them. *)
Lemma generations_pointers n s :
  wf C R s ->
  current_grid_ (generations C R n s)
  = (if Nat.even n then current_grid_ s else next_grid_ s) /\
  next_grid_ (generations C R n s)
  = (if Nat.even n then next_grid_ s else current_grid_ s).
Proof.
  revert s. induction n as [| n IH]; intros s Hwf; [easy |].
  cbn [generations]. destruct (IH _ (stepped_wf s Hwf)) as [-> ->].
  destruct (stepped_pointers s Hwf) as (-> & -> & _).
  rewrite Nat.even_succ, <- Nat.negb_even. now destruct (Nat.even n).
Qed.

End Generations.

(** ** The class invariant is kept by every member function *)

Section Invariant.

Variables C R : Z.
Hypothesis HC : 0 < C.
Hypothesis HR : 0 < R.

Lemma togglePause_wf s s' :
  wf C R s -> togglePause s = Some (tt, s') -> wf C R s'.
Proof. intros Hwf E. injection E as <-. exact Hwf. Qed.

Lemma vec_set_wf p i v s s' :
  wf C R s -> vec_set p i v s = Some (tt, s') -> wf C R s'.
Proof.
  intros Hwf E. unfold vec_set in E.
  destruct ((0 <=? i) && (i <? Z.of_nat (length (deref s p)))); [| discriminate].
  injection E as <-. apply wf_store; [assumption |].
  rewrite length_insert. now apply wf_length.
Qed.

Lemma setCell_wf x y s s' :
  wf C R s -> setCell C x y s = Some (tt, s') -> wf C R s'.
Proof. unfold setCell. rewrite bind_gets. apply vec_set_wf. Qed.

Lemma unsetCell_wf x y s s' :
  wf C R s -> unsetCell C x y s = Some (tt, s') -> wf C R s'.
Proof. unfold unsetCell. rewrite bind_gets. apply vec_set_wf. Qed.

Lemma clear_wf s s' :
  wf C R s -> clear C R s = Some (tt, s') -> wf C R s'.
Proof.
  intros Hwf E. pose proof Hwf as (_ & H1 & H2 & _).
  rewrite clear_spec in E by (nia || assumption).
  injection E as <-. now apply wf_cleared.
Qed.

Lemma update_wf s s' :
  wf C R s -> update C R s = Some (tt, s') -> wf C R s'.
Proof.
  intros Hwf E. destruct (pause_ s) eqn:Hp.
  - rewrite update_paused in E by exact Hp. now injection E as <-.
  - rewrite update_stepped in E by assumption.
    injection E as <-. now apply stepped_wf.
Qed.

End Invariant.

(** ** Grids without live cells *)

Lemma toroidal_count_all_off C R n x y :
  toroidal_count C R (replicate n OFF) x y = 0.
Proof.
  assert (forall u v, alive_at C (replicate n OFF) u v = 0) as H.
  { intros u v. unfold alive_at, cell. case_decide as E; [| reflexivity].
    apply lookup_replicate in E as [E _]. discriminate. }
  unfold toroidal_count, neighbor_offsets. cbn [foldr]. now rewrite !H.
Qed.

Lemma next_gen_all_off C R n :
  next_gen C R (replicate n OFF) = replicate n OFF.
Proof.
  apply list_eq. intros i. unfold next_gen. rewrite list_lookup_imap.
  destruct (decide (i < n)%nat) as [Hi | Hi].
  - rewrite lookup_replicate_2 by exact Hi. cbn.
    now rewrite toroidal_count_all_off.
  - now rewrite lookup_ge_None_2 by (rewrite length_replicate; lia).
Qed.

(** * The properties of the specification *)

(** ** One call of [update] *)

(** C1. For every well-formed running board and every in-range cell
    [(x, y)], [update] returns, and the value it leaves at [(x, y)] in the
    grid that was next follows Conway's rules for the toroidal count [n] of
    live neighbours in the grid that was current (which is what
    [countAliveNeighbors] returns): a dead cell becomes alive exactly when
    [n = 3], a live cell dies exactly when [n <= 1] or [n >= 4], and in every
    other case the cell keeps its state. *)
Theorem update_conway_rules C R s x y :
  0 < C -> 0 < R -> wf C R s -> pause_ s = false ->
  0 <= x < C -> 0 <= y < R ->
  exists s' cur nxt,
    let n := toroidal_count C R (deref s (current_grid_ s)) x y in
    update C R s = Some (tt, s') /\
    countAliveNeighbors C R x y s = Some (n, s) /\
    cell C (deref s (current_grid_ s)) x y = Some cur /\
    cell C (deref s' (next_grid_ s)) x y = Some nxt /\
    current_grid_ s' = next_grid_ s /\
    (cur = OFF -> (nxt = ON <-> n = 3)) /\
    (cur = ON -> (nxt = OFF <-> n <= 1 \/ n >= 4)) /\
    (~ (cur = OFF /\ n = 3) -> ~ (cur = ON /\ (n <= 1 \/ n >= 4)) -> nxt = cur).
Proof.
  intros HC HR Hwf Hp Hx Hy.
  destruct (cell_is_Some C R _ x y (wf_length C R s (current_grid_ s) Hwf) Hx Hy)
    as [cur Hcur].
  destruct (stepped_pointers C R s Hwf) as (Ec & _ & En & _).
  exists (stepped C R s), cur,
    (next_state cur (toroidal_count C R (deref s (current_grid_ s)) x y)).
  cbv zeta. set (n := toroidal_count C R (deref s (current_grid_ s)) x y).
  split; [now apply update_stepped |].
  split; [apply countAliveNeighbors_spec; try assumption; now apply wf_length |].
  split; [exact Hcur |].
  split.
  { rewrite En, next_gen_cell by assumption. unfold next_cell. now rewrite Hcur. }
  split; [exact Ec |].
  unfold next_state.
  destruct cur; destruct (Z.eqb_spec n 3); destruct (Z.leb_spec n 1);
    destruct (Z.geb_spec n 4); cbn [orb];
    repeat split; intros; try congruence; try lia; exfalso; intuition lia.
Qed.

Lemma update_conway_rules_witness :
  0 < 3 /\ 0 < 3 /\ wf 3 3 blinker_board /\ pause_ blinker_board = false /\
  0 <= 0 < 3 /\ 0 <= 1 < 3 /\
  exists s' cur nxt,
    let n := toroidal_count 3 3 (deref blinker_board (current_grid_ blinker_board)) 0 1 in
    update 3 3 blinker_board = Some (tt, s') /\
    countAliveNeighbors 3 3 0 1 blinker_board = Some (n, blinker_board) /\
    cell 3 (deref blinker_board (current_grid_ blinker_board)) 0 1 = Some cur /\
    cell 3 (deref s' (next_grid_ blinker_board)) 0 1 = Some nxt /\
    current_grid_ s' = next_grid_ blinker_board /\
    (cur = OFF -> (nxt = ON <-> n = 3)) /\
    (cur = ON -> (nxt = OFF <-> n <= 1 \/ n >= 4)) /\
    (~ (cur = OFF /\ n = 3) -> ~ (cur = ON /\ (n <= 1 \/ n >= 4)) -> nxt = cur).
Proof.
  assert (0 < 3) as H3 by lia.
  assert (wf 3 3 blinker_board) as Hwf by (repeat split; reflexivity).
  assert (pause_ blinker_board = false) as Hp by reflexivity.
  assert (0 <= 0 < 3) as Hx by lia.
  assert (0 <= 1 < 3) as Hy by lia.
  repeat (split; [assumption |]).
  exact (update_conway_rules 3 3 blinker_board 0 1 H3 H3 Hwf Hp Hx Hy).
Defined.

(** C2. Whatever the board, when the paused flag is set a call of [update]
    returns the object as it found it: no cell of either grid changes and the
    pointers keep their roles. *)
Theorem update_paused_noop C R s :
  pause_ s = true -> update C R s = Some (tt, s).
Proof. apply update_paused. Qed.

Lemma update_paused_noop_witness :
  pause_ (constructed 3 3) = true /\
  update 3 3 (constructed 3 3) = Some (tt, constructed 3 3).
Proof.
  assert (pause_ (constructed 3 3) = true) as Hp by reflexivity.
  split; [exact Hp |].
  exact (update_paused_noop 3 3 (constructed 3 3) Hp).
Defined.

(** C10. An unpaused [update] leaves the grid that is current at entry as
    it is: once the call has returned, that grid is the one [next_grid_]
    points to, and it holds the generation that was current before the
    call. *)
Theorem update_keeps_current_grid C R s :
  0 < C -> 0 < R -> wf C R s -> pause_ s = false ->
  exists s',
    update C R s = Some (tt, s') /\
    next_grid_ s' = current_grid_ s /\
    deref s' (next_grid_ s') = deref s (current_grid_ s).
Proof.
  intros HC HR Hwf Hp. exists (stepped C R s).
  destruct (stepped_pointers C R s Hwf) as (_ & En & _ & Eg).
  split; [now apply update_stepped |].
  split; [exact En | now rewrite En].
Qed.

Lemma update_keeps_current_grid_witness :
  0 < 3 /\ 0 < 3 /\ wf 3 3 blinker_board /\ pause_ blinker_board = false /\
  exists s',
    update 3 3 blinker_board = Some (tt, s') /\
    next_grid_ s' = current_grid_ blinker_board /\
    deref s' (next_grid_ s')
    = deref blinker_board (current_grid_ blinker_board).
Proof.
  assert (0 < 3) as H3 by lia.
  assert (wf 3 3 blinker_board) as Hwf by (repeat split; reflexivity).
  assert (pause_ blinker_board = false) as Hp by reflexivity.
  repeat (split; [assumption |]).
  exact (update_keeps_current_grid 3 3 blinker_board H3 H3 Hwf Hp).
Defined.

(** ** Clearing, construction and single cells *)

(** C3. On a well-formed board [clear] returns and leaves every cell of
    both grids [OFF]; and when the board is running, the call of [update]
    that follows returns too and leaves every cell of both grids [OFF], the
    grid shown by [getGrid] among them. *)
Theorem clear_then_update_all_off C R s :
  0 < C -> 0 < R -> wf C R s ->
  exists s1,
    clear C R s = Some (tt, s1) /\
    grid1_ s1 = replicate (Z.to_nat (C * R)) OFF /\
    grid2_ s1 = replicate (Z.to_nat (C * R)) OFF /\
    (pause_ s = false ->
     exists s2,
       update C R s1 = Some (tt, s2) /\
       grid1_ s2 = replicate (Z.to_nat (C * R)) OFF /\
       grid2_ s2 = replicate (Z.to_nat (C * R)) OFF /\
       forall x y, 0 <= x < C -> 0 <= y < R ->
                   cell C (deref s2 (current_grid_ s2)) x y = Some OFF).
Proof.
  intros HC HR Hwf. exists (cleared C R s).
  split.
  { destruct Hwf as (_ & H1 & H2 & _). apply clear_spec; [nia | easy | easy]. }
  split; [reflexivity |]. split; [reflexivity |].
  intros Hp. exists (stepped C R (cleared C R s)).
  split; [apply update_stepped; [easy | easy | now apply wf_cleared | exact Hp] |].
  assert (grid1_ (stepped C R (cleared C R s)) = replicate (Z.to_nat (C * R)) OFF /\
          grid2_ (stepped C R (cleared C R s)) = replicate (Z.to_nat (C * R)) OFF)
    as [E1 E2].
  { unfold stepped.
    assert (forall p, deref (cleared C R s) p = replicate (Z.to_nat (C * R)) OFF)
      as -> by now intros [].
    rewrite next_gen_all_off. now destruct (next_grid_ (cleared C R s)). }
  split; [exact E1 |]. split; [exact E2 |].
  intros x y Hx Hy.
  assert (deref (stepped C R (cleared C R s))
            (current_grid_ (stepped C R (cleared C R s)))
          = replicate (Z.to_nat (C * R)) OFF) as ->
    by now destruct (current_grid_ (stepped C R (cleared C R s))).
  apply lookup_replicate_2.
  pose proof (convert_indices_range C R x y Hx Hy). lia.
Qed.

Lemma clear_then_update_all_off_witness :
  0 < 3 /\ 0 < 3 /\ wf 3 3 blinker_board /\
  exists s1,
    clear 3 3 blinker_board = Some (tt, s1) /\
    grid1_ s1 = replicate (Z.to_nat (3 * 3)) OFF /\
    grid2_ s1 = replicate (Z.to_nat (3 * 3)) OFF /\
    (pause_ blinker_board = false ->
     exists s2,
       update 3 3 s1 = Some (tt, s2) /\
       grid1_ s2 = replicate (Z.to_nat (3 * 3)) OFF /\
       grid2_ s2 = replicate (Z.to_nat (3 * 3)) OFF /\
       forall x y, 0 <= x < 3 -> 0 <= y < 3 ->
                   cell 3 (deref s2 (current_grid_ s2)) x y = Some OFF).
Proof.
  assert (0 < 3) as H3 by lia.
  assert (wf 3 3 blinker_board) as Hwf by (repeat split; reflexivity).
  repeat (split; [assumption |]).
  exact (clear_then_update_all_off 3 3 blinker_board H3 H3 Hwf).
Defined.

(** C4, as the code has it. For [C > 0] and [R > 0] whose product fits in
    an [int] ([C * R <= INT_MAX]) the constructor returns an object whose
    two grids have [C * R] cells each, all of them [OFF], and whose paused
    flag is set; on it [getSize] returns the pair [(C, R)] and leaves the
    object as it is. *)
Theorem constructor_spec C R :
  0 < C -> 0 < R -> C * R <= INT_MAX ->
  exists s,
    ConwaysGameOfLife C R = Some s /\
    length (grid1_ s) = Z.to_nat (C * R) /\
    length (grid2_ s) = Z.to_nat (C * R) /\
    (forall p x y, 0 <= x < C -> 0 <= y < R -> cell C (deref s p) x y = Some OFF) /\
    Forall (fun c => c = OFF) (grid1_ s) /\
    Forall (fun c => c = OFF) (grid2_ s) /\
    pause_ s = true /\
    getSize s = Some ((C, R), s).
Proof.
  intros HC HR Hmax. exists (constructed C R).
  split; [apply ConwaysGameOfLife_spec; nia |].
  split; [apply length_replicate |]. split; [apply length_replicate |].
  split.
  { intros p x y Hx Hy.
    assert (deref (constructed C R) p = replicate (Z.to_nat (C * R)) OFF) as ->
      by now destruct p.
    apply lookup_replicate_2.
    pose proof (convert_indices_range C R x y Hx Hy). lia. }
  repeat split; apply Forall_replicate; reflexivity.
Qed.

Lemma constructor_spec_witness :
  0 < 4 /\ 0 < 3 /\ 4 * 3 <= INT_MAX /\
  exists s,
    ConwaysGameOfLife 4 3 = Some s /\
    length (grid1_ s) = Z.to_nat (4 * 3) /\
    length (grid2_ s) = Z.to_nat (4 * 3) /\
    (forall p x y, 0 <= x < 4 -> 0 <= y < 3 -> cell 4 (deref s p) x y = Some OFF) /\
    Forall (fun c => c = OFF) (grid1_ s) /\
    Forall (fun c => c = OFF) (grid2_ s) /\
    pause_ s = true /\
    getSize s = Some ((4, 3), s).
Proof.
  assert (0 < 4) as H4 by lia.
  assert (0 < 3) as H3 by lia.
  assert (4 * 3 <= INT_MAX) as Hmax by (unfold INT_MAX; lia).
  repeat (split; [assumption |]).
  exact (constructor_spec 4 3 H4 H3 Hmax).
Defined.

(** C4, as stated, fails: 50000 columns and 50000 rows are positive
    dimensions, but their product does not fit in an [int] and the
    constructor returns no object with [50000 * 50000]-cell grids. *)
Lemma constructor_overflow_counterexample :
  0 < 50000 /\ 0 < 50000 /\
  ~ exists s, ConwaysGameOfLife 50000 50000 = Some s /\
              length (grid1_ s) = Z.to_nat (50000 * 50000) /\
              length (grid2_ s) = Z.to_nat (50000 * 50000).
Proof.
  split; [lia |]. split; [lia |].
  intros (s & E & _).
  assert (ConwaysGameOfLife 50000 50000 = None) as H by (vm_compute; reflexivity).
  rewrite H in E. discriminate.
Qed.

(** Assigning through the current pointer at an in-range cell. *)
Lemma vec_set_cell_assigned C R s x y v :
  wf C R s -> 0 <= x < C -> 0 <= y < R ->
  exists s',
    vec_set (current_grid_ s) (convert_indices x y C) v s = Some (tt, s') /\
    cell_assigned C R s s' x y v.
Proof.
  intros Hwf Hx Hy.
  pose proof (convert_indices_range C R x y Hx Hy) as Hidx.
  pose proof (wf_length C R s (current_grid_ s) Hwf) as Hlen.
  pose proof (wf_pointers C R s Hwf) as Hne.
  eexists. split; [apply vec_set_Some; lia |].
  destruct (store_fields s (current_grid_ s)
              (<[Z.to_nat (convert_indices x y C) := v]>
                 (deref s (current_grid_ s)))) as (_ & Eg & Ec & En & Ep).
  unfold cell_assigned. rewrite deref_store_eq.
  split; [unfold cell; apply list_lookup_insert_eq; lia |].
  split.
  { intros x' y' Hx' Hy' Hxy. unfold cell. apply list_lookup_insert_ne.
    intros E. apply Hxy.
    pose proof (convert_indices_range C R x' y' Hx' Hy').
    apply Z2Nat.inj in E; [| lia | lia].
    apply convert_indices_inj in E as [-> ->]; easy. }
  split; [now apply deref_store_ne |].
  easy.
Qed.

(** C5. For an in-range cell [(x, y)] of a well-formed board, [setCell]
    returns with the cell [ON] in the current grid and [unsetCell] returns
    with it [OFF]; either way every other cell of the current grid, the
    whole next grid, the paused flag and the roles of the two grids are as
    before. *)
Theorem setCell_unsetCell_frame C R s x y :
  wf C R s -> 0 <= x < C -> 0 <= y < R ->
  (exists s', setCell C x y s = Some (tt, s') /\ cell_assigned C R s s' x y ON) /\
  (exists s', unsetCell C x y s = Some (tt, s') /\ cell_assigned C R s s' x y OFF).
Proof.
  intros Hwf Hx Hy. unfold setCell, unsetCell. rewrite !bind_gets.
  split; now apply vec_set_cell_assigned.
Qed.

Lemma setCell_unsetCell_frame_witness :
  wf 3 3 blinker_board /\ 0 <= 2 < 3 /\ 0 <= 1 < 3 /\
  (exists s', setCell 3 2 1 blinker_board = Some (tt, s') /\
              cell_assigned 3 3 blinker_board s' 2 1 ON) /\
  (exists s', unsetCell 3 2 1 blinker_board = Some (tt, s') /\
              cell_assigned 3 3 blinker_board s' 2 1 OFF).
Proof.
  assert (wf 3 3 blinker_board) as Hwf by (repeat split; reflexivity).
  assert (0 <= 2 < 3) as Hx by lia.
  assert (0 <= 1 < 3) as Hy by lia.
  repeat (split; [assumption |]).
  exact (setCell_unsetCell_frame 3 3 blinker_board 2 1 Hwf Hx Hy).
Defined.

(** ** Patterns *)

Lemma range_elem x n : 0 <= x < n -> x ∈ seqZ 0 n.
Proof. intros Hx. apply elem_of_seqZ. lia. Qed.

(** Case analysis on a coordinate of a grid of known size. *)
Ltac range_cases H :=
  match type of H with
  | 0 <= ?x < ?n =>
      apply range_elem in H;
      let l := eval vm_compute in (seqZ 0 n) in
      change (seqZ 0 n) with l in H;
      repeat (apply elem_of_cons in H as [-> | H]);
      [.. | now apply elem_of_nil in H]
  end.

Lemma translated_by_spec C R dx dy (g g' : list CellState) :
  translated_by C R dx dy g g' = true ->
  forall x y, 0 <= x < C -> 0 <= y < R ->
    cell C g' ((x + dx) `mod` C) ((y + dy) `mod` R) = cell C g x y.
Proof.
  unfold translated_by. intros H x y Hx Hy.
  rewrite forallb_forall in H.
  specialize (H x (proj1 (list_elem_of_In _ _) (range_elem x C Hx))).
  rewrite forallb_forall in H.
  specialize (H y (proj1 (list_elem_of_In _ _) (range_elem y R Hy))).
  now apply bool_decide_eq_true in H.
Qed.

(** C6. On a well-formed 1x1 board whose cell is [ON], the 8 offsets all
    wrap back to the cell itself, [countAliveNeighbors] returns 8, and an
    unpaused [update] returns with the cell [OFF] in the grid it makes
    current. *)
Theorem single_cell_torus s :
  wf 1 1 s -> cell 1 (deref s (current_grid_ s)) 0 0 = Some ON ->
  Forall (fun d => ((0 + d.1) `mod` 1, (0 + d.2) `mod` 1) = (0, 0))
         neighbor_offsets /\
  countAliveNeighbors 1 1 0 0 s = Some (8, s) /\
  (pause_ s = false ->
   exists s', update 1 1 s = Some (tt, s') /\
              cell 1 (deref s' (current_grid_ s')) 0 0 = Some OFF).
Proof.
  intros Hwf Hon.
  assert (toroidal_count 1 1 (deref s (current_grid_ s)) 0 0 = 8) as Hn.
  { unfold toroidal_count, neighbor_offsets. cbn [foldr fst snd].
    rewrite !Z.mod_1_r. unfold alive_at. rewrite Hon.
    now rewrite decide_True by reflexivity. }
  split; [repeat constructor |].
  split.
  { rewrite countAliveNeighbors_spec, Hn; try lia; [reflexivity |].
    now apply wf_length. }
  intros Hp. exists (stepped 1 1 s).
  split; [apply update_stepped; [lia | lia | assumption | assumption] |].
  rewrite stepped_current by assumption.
  rewrite next_gen_cell by lia. unfold next_cell. now rewrite Hon, Hn.
Qed.

Lemma single_cell_torus_witness :
  wf 1 1 lone_cell_board /\
  cell 1 (deref lone_cell_board (current_grid_ lone_cell_board)) 0 0 = Some ON /\
  Forall (fun d => ((0 + d.1) `mod` 1, (0 + d.2) `mod` 1) = (0, 0))
         neighbor_offsets /\
  countAliveNeighbors 1 1 0 0 lone_cell_board = Some (8, lone_cell_board) /\
  (pause_ lone_cell_board = false ->
   exists s', update 1 1 lone_cell_board = Some (tt, s') /\
              cell 1 (deref s' (current_grid_ s')) 0 0 = Some OFF).
Proof.
  assert (wf 1 1 lone_cell_board) as Hwf by (repeat split; reflexivity).
  assert (cell 1 (deref lone_cell_board (current_grid_ lone_cell_board)) 0 0
          = Some ON) as Hon by reflexivity.
  repeat (split; [assumption |]).
  exact (single_cell_torus lone_cell_board Hwf Hon).
Defined.

(** C7. On a well-formed running 8x8 board whose current grid holds the
    glider, placed anywhere on the torus, and nothing else, 4 calls of
    [update] all return and the grid then current is the first one moved by
    [(1, 1)] modulo the grid dimensions: the cell that was at [(x, y)] is at
    [((x+1) mod 8, (y+1) mod 8)], so the live cells are the glider one
    step further along both axes. *)
Theorem glider_translates s dx dy :
  wf 8 8 s -> pause_ s = false ->
  0 <= dx < 8 -> 0 <= dy < 8 ->
  deref s (current_grid_ s) = grid_of_cells 8 8 (translate 8 8 dx dy glider) ->
  exists s4,
    steps 8 8 4 s = Some (tt, s4) /\
    deref s4 (current_grid_ s4)
    = grid_of_cells 8 8 (translate 8 8 (dx + 1) (dy + 1) glider) /\
    forall x y, 0 <= x < 8 -> 0 <= y < 8 ->
      cell 8 (deref s4 (current_grid_ s4)) ((x + 1) `mod` 8) ((y + 1) `mod` 8)
      = cell 8 (deref s (current_grid_ s)) x y.
Proof.
  intros Hwf Hp Hdx Hdy Hg. exists (generations 8 8 4 s).
  split; [apply steps_spec; [lia | lia | assumption | assumption] |].
  rewrite generations_current, Hg by (lia || assumption).
  range_cases Hdx; range_cases Hdy;
    (split; [vm_compute; reflexivity
            | apply translated_by_spec; vm_compute; reflexivity]).
Qed.

Example seeded_glider : seeded 8 8 glider = Some glider_board.
Proof. vm_compute. reflexivity. Qed.

Example seeded_block :
  seeded 10 10 (translate 10 10 4 4 block) = Some block_board.
Proof. vm_compute. reflexivity. Qed.

Lemma glider_translates_witness :
  wf 8 8 glider_board /\ pause_ glider_board = false /\
  0 <= 0 < 8 /\ 0 <= 0 < 8 /\
  deref glider_board (current_grid_ glider_board)
  = grid_of_cells 8 8 (translate 8 8 0 0 glider) /\
  exists s4,
    steps 8 8 4 glider_board = Some (tt, s4) /\
    deref s4 (current_grid_ s4)
    = grid_of_cells 8 8 (translate 8 8 (0 + 1) (0 + 1) glider) /\
    forall x y, 0 <= x < 8 -> 0 <= y < 8 ->
      cell 8 (deref s4 (current_grid_ s4)) ((x + 1) `mod` 8) ((y + 1) `mod` 8)
      = cell 8 (deref glider_board (current_grid_ glider_board)) x y.
Proof.
  assert (wf 8 8 glider_board) as Hwf by (repeat split; reflexivity).
  assert (pause_ glider_board = false) as Hp by reflexivity.
  assert (0 <= 0 < 8) as H0 by lia.
  assert (deref glider_board (current_grid_ glider_board)
          = grid_of_cells 8 8 (translate 8 8 0 0 glider)) as Hg by reflexivity.
  repeat (split; [assumption |]).
  exact (glider_translates glider_board 0 0 Hwf Hp H0 H0 Hg).
Defined.

(** A grid that is its own next generation stays the same for ever. *)
Lemma next_gens_fixed C R (g : list CellState) n :
  next_gen C R g = g -> next_gens C R n g = g.
Proof.
  intros Hfix. induction n as [| n IH]; [reflexivity |].
  cbn [next_gens]. now rewrite Hfix.
Qed.

(** C8. On a well-formed running 10x10 board whose live cells are those of
    a 2x2 block, placed anywhere on the torus, any number [n] of calls of
    [update] all return and the grid then current is the grid that was
    current at the start. *)
Theorem block_still_life s bx by_ n :
  wf 10 10 s -> pause_ s = false ->
  0 <= bx < 10 -> 0 <= by_ < 10 ->
  deref s (current_grid_ s)
  = grid_of_cells 10 10 (translate 10 10 bx by_ block) ->
  exists s',
    steps 10 10 n s = Some (tt, s') /\
    deref s' (current_grid_ s') = deref s (current_grid_ s).
Proof.
  intros Hwf Hp Hbx Hby Hg. exists (generations 10 10 n s).
  split; [apply steps_spec; [lia | lia | assumption | assumption] |].
  rewrite generations_current by (lia || assumption).
  apply next_gens_fixed. rewrite Hg.
  range_cases Hbx; range_cases Hby; vm_compute; reflexivity.
Qed.

Lemma block_still_life_witness :
  wf 10 10 block_board /\ pause_ block_board = false /\
  0 <= 4 < 10 /\ 0 <= 4 < 10 /\
  deref block_board (current_grid_ block_board)
  = grid_of_cells 10 10 (translate 10 10 4 4 block) /\
  exists s',
    steps 10 10 7 block_board = Some (tt, s') /\
    deref s' (current_grid_ s') = deref block_board (current_grid_ block_board).
Proof.
  assert (wf 10 10 block_board) as Hwf by (repeat split; reflexivity).
  assert (pause_ block_board = false) as Hp by reflexivity.
  assert (0 <= 4 < 10) as H4 by lia.
  assert (deref block_board (current_grid_ block_board)
          = grid_of_cells 10 10 (translate 10 10 4 4 block)) as Hg by reflexivity.
  repeat (split; [assumption |]).
  exact (block_still_life block_board 4 4 7 Hwf Hp H4 H4 Hg).
Defined.

(** ** The roles of the two grids *)

(** C9, as the code has it. After two unpaused calls of [update], and
    after any even number of them, the grid that was current before the
    first call is current again and the grid that was next is next again;
    after an odd number of calls the two have traded places. *)
Theorem update_roles_parity C R s :
  0 < C -> 0 < R -> wf C R s -> pause_ s = false ->
  (exists s2, steps C R 2 s = Some (tt, s2) /\
              current_grid_ s2 = current_grid_ s /\
              next_grid_ s2 = next_grid_ s) /\
  (forall n, exists s', steps C R (2 * n) s = Some (tt, s') /\
                        current_grid_ s' = current_grid_ s /\
                        next_grid_ s' = next_grid_ s) /\
  (forall n, exists s', steps C R (2 * n + 1) s = Some (tt, s') /\
                        current_grid_ s' = next_grid_ s /\
                        next_grid_ s' = current_grid_ s).
Proof.
  intros HC HR Hwf Hp.
  assert (forall n, exists s', steps C R n s = Some (tt, s') /\
            current_grid_ s'
            = (if Nat.even n then current_grid_ s else next_grid_ s) /\
            next_grid_ s'
            = (if Nat.even n then next_grid_ s else current_grid_ s)) as H.
  { intros n. exists (generations C R n s).
    split; [now apply steps_spec | now apply generations_pointers]. }
  split; [apply (H 2%nat) |]. split; intros n.
  - destruct (H (2 * n)%nat) as (s' & E & Ec & En). exists s'.
    now rewrite Nat.even_even in Ec, En.
  - destruct (H (2 * n + 1)%nat) as (s' & E & Ec & En). exists s'.
    now rewrite Nat.even_odd in Ec, En.
Qed.

Lemma update_roles_parity_witness :
  0 < 3 /\ 0 < 3 /\ wf 3 3 blinker_board /\ pause_ blinker_board = false /\
  (exists s2, steps 3 3 2 blinker_board = Some (tt, s2) /\
              current_grid_ s2 = current_grid_ blinker_board /\
              next_grid_ s2 = next_grid_ blinker_board) /\
  (forall n, exists s', steps 3 3 (2 * n) blinker_board = Some (tt, s') /\
                        current_grid_ s' = current_grid_ blinker_board /\
                        next_grid_ s' = next_grid_ blinker_board) /\
  (forall n, exists s', steps 3 3 (2 * n + 1) blinker_board = Some (tt, s') /\
                        current_grid_ s' = next_grid_ blinker_board /\
                        next_grid_ s' = current_grid_ blinker_board).
Proof.
  assert (0 < 3) as H3 by lia.
  assert (wf 3 3 blinker_board) as Hwf by (repeat split; reflexivity).
  assert (pause_ blinker_board = false) as Hp by reflexivity.
  repeat (split; [assumption |]).
  exact (update_roles_parity 3 3 blinker_board H3 H3 Hwf Hp).
Defined.

(** C9, as stated, fails: on the running blinker board two calls of
    [update] return, and the grid that was current before the first call is
    then not the one [next_grid_] points to. *)
Lemma roles_after_two_steps_counterexample :
  wf 3 3 blinker_board /\ pause_ blinker_board = false /\
  exists s2, steps 3 3 2 blinker_board = Some (tt, s2) /\
             next_grid_ s2 <> current_grid_ blinker_board.
Proof.
  split; [repeat split; reflexivity |]. split; [reflexivity |].
  eexists. split; [vm_compute; reflexivity |]. cbn. discriminate.
Qed.

(** * Further properties of the class *)

(** ** Counting *)

Lemma alive_at_bounds C (g : list CellState) x y : 0 <= alive_at C g x y <= 1.
Proof. unfold alive_at. case_decide; lia. Qed.

Lemma toroidal_count_bounds C R (g : list CellState) x y :
  0 <= toroidal_count C R g x y <= 8.
Proof.
  unfold toroidal_count, neighbor_offsets. cbn [foldr fst snd].
  repeat match goal with
         | |- context [alive_at C g ?u ?v] =>
             let H := fresh "H" in
             pose proof (alive_at_bounds C g u v) as H;
             generalize dependent (alive_at C g u v); intros
         end.
  lia.
Qed.

(** X1. On a well-formed board and for an in-range cell,
    [countAliveNeighbors] returns a count between 0 and 8 and leaves the
    object as it found it. *)
Theorem countAliveNeighbors_bounds C R s x y :
  0 < C -> 0 < R -> wf C R s -> 0 <= x < C -> 0 <= y < R ->
  exists n, countAliveNeighbors C R x y s = Some (n, s) /\ 0 <= n <= 8.
Proof.
  intros HC HR Hwf Hx Hy. eexists. split.
  - apply countAliveNeighbors_spec; try assumption. now apply wf_length.
  - apply toroidal_count_bounds.
Qed.

Lemma countAliveNeighbors_bounds_witness :
  0 < 3 /\ 0 < 3 /\ wf 3 3 blinker_board /\ 0 <= 2 < 3 /\ 0 <= 0 < 3 /\
  exists n, countAliveNeighbors 3 3 2 0 blinker_board = Some (n, blinker_board) /\
            0 <= n <= 8.
Proof.
  assert (0 < 3) as H3 by lia.
  assert (wf 3 3 blinker_board) as Hwf by (repeat split; reflexivity).
  assert (0 <= 2 < 3) as Hx by lia.
  assert (0 <= 0 < 3) as Hy by lia.
  repeat (split; [assumption |]).
  exact (countAliveNeighbors_bounds 3 3 blinker_board 2 0 H3 H3 Hwf Hx Hy).
Defined.

(** ** Assigning single cells *)

Lemma vec_set_is_Some p i v s :
  is_Some (vec_set p i v s) <-> 0 <= i < Z.of_nat (length (deref s p)).
Proof.
  unfold vec_set.
  destruct (Z.leb_spec 0 i), (Z.ltb_spec i (Z.of_nat (length (deref s p))));
    cbn [andb]; split; intros Hs; try lia; try (now eexists);
    destruct Hs as [? Hs]; discriminate.
Qed.

Lemma vec_set_None p i v s :
  ~ 0 <= i < Z.of_nat (length (deref s p)) -> vec_set p i v s = None.
Proof.
  intros H. destruct (vec_set p i v s) eqn:E; [| reflexivity].
  exfalso. apply H, (vec_set_is_Some p i v s). rewrite E. now eexists.
Qed.

(** Two assignments in a row through the current pointer. *)
Lemma assign_twice i v j w s :
  0 <= i < Z.of_nat (length (deref s (current_grid_ s))) ->
  0 <= j < Z.of_nat (length (deref s (current_grid_ s))) ->
  bind (fun t => vec_set (current_grid_ t) i v t)
       (fun _ t => vec_set (current_grid_ t) j w t) s
  = Some (tt, store s (current_grid_ s)
                (<[Z.to_nat j := w]>
                   (<[Z.to_nat i := v]> (deref s (current_grid_ s))))).
Proof.
  intros Hi Hj. unfold bind. cbv beta.
  rewrite (vec_set_Some (current_grid_ s) i v s Hi).
  destruct (store_fields s (current_grid_ s)
              (<[Z.to_nat i := v]> (deref s (current_grid_ s))))
    as (_ & _ & -> & _).
  rewrite vec_set_Some; rewrite deref_store_eq.
  - now rewrite store_store.
  - now rewrite length_insert.
Qed.

Lemma assign_twice_same i v w s :
  bind (fun t => vec_set (current_grid_ t) i v t)
       (fun _ t => vec_set (current_grid_ t) i w t) s
  = vec_set (current_grid_ s) i w s.
Proof.
  destruct (decide (0 <= i < Z.of_nat (length (deref s (current_grid_ s)))))
    as [Hi | Hi].
  - rewrite assign_twice by exact Hi.
    rewrite list_insert_insert_eq. symmetry. now apply vec_set_Some.
  - unfold bind. cbv beta. now rewrite !vec_set_None by exact Hi.
Qed.

(** X2. Neither [setCell] nor [unsetCell] checks its coordinates: on a
    well-formed board the call returns exactly when the flat index
    [convert_indices x y C] lies inside the vector, and is undefined
    behaviour otherwise. *)
Theorem setCell_defined_iff C R s x y :
  wf C R s ->
  (is_Some (setCell C x y s) <-> 0 <= convert_indices x y C < C * R) /\
  (is_Some (unsetCell C x y s) <-> 0 <= convert_indices x y C < C * R).
Proof.
  intros Hwf. unfold setCell, unsetCell. rewrite !bind_gets.
  rewrite !vec_set_is_Some, (wf_length C R s _ Hwf). lia.
Qed.

Lemma setCell_defined_iff_witness :
  wf 3 3 blinker_board /\
  (is_Some (setCell 3 3 2 blinker_board) <-> 0 <= convert_indices 3 2 3 < 3 * 3) /\
  (is_Some (unsetCell 3 3 2 blinker_board) <-> 0 <= convert_indices 3 2 3 < 3 * 3).
Proof.
  assert (wf 3 3 blinker_board) as Hwf by (repeat split; reflexivity).
  split; [assumption |].
  exact (setCell_defined_iff 3 3 blinker_board 3 2 Hwf).
Defined.



(** X4. Of two assignments to the same cell in a row the last one wins:
    [setCell] and [unsetCell] are idempotent and each undoes the
    other's effect on the cell, whatever the board and the coordinates. *)
Theorem last_write_wins C x y s :
  (setCell C x y ;;; setCell C x y) s = setCell C x y s /\
  (unsetCell C x y ;;; setCell C x y) s = setCell C x y s /\
  (setCell C x y ;;; unsetCell C x y) s = unsetCell C x y s /\
  (unsetCell C x y ;;; unsetCell C x y) s = unsetCell C x y s.
Proof.
  repeat split; apply assign_twice_same.
Qed.

(** X5. Round trip: on a board whose cell at the in-range [(x, y)] is
    [OFF], [setCell] followed by [unsetCell] gives the object back as it
    was; likewise [unsetCell] followed by [setCell] when the cell is [ON]. *)
Theorem set_unset_round_trip C R s x y v :
  0 <= x < C -> 0 <= y < R ->
  cell C (deref s (current_grid_ s)) x y = Some v ->
  match v with
  | OFF => (setCell C x y ;;; unsetCell C x y) s = Some (tt, s)
  | ON => (unsetCell C x y ;;; setCell C x y) s = Some (tt, s)
  end.
Proof.
  intros Hx Hy Hv.
  pose proof (convert_indices_range C R x y Hx Hy) as Hidx.
  pose proof (lookup_lt_Some _ _ _ Hv) as Hlt.
  assert (forall w, (fun t => vec_set (current_grid_ t) (convert_indices x y C) w t) s
                    = Some (tt, store s (current_grid_ s)
                                  (<[Z.to_nat (convert_indices x y C) := w]>
                                     (deref s (current_grid_ s))))) as Hset
    by (intros w; apply vec_set_Some; lia).
  destruct v.
  - change ((unsetCell C x y ;;; setCell C x y) s)
      with (bind (fun t => vec_set (current_grid_ t) (convert_indices x y C) OFF t)
                 (fun _ t => vec_set (current_grid_ t) (convert_indices x y C) ON t) s).
    rewrite assign_twice_same, Hset, list_insert_id by exact Hv.
    now rewrite store_deref.
  - change ((setCell C x y ;;; unsetCell C x y) s)
      with (bind (fun t => vec_set (current_grid_ t) (convert_indices x y C) ON t)
                 (fun _ t => vec_set (current_grid_ t) (convert_indices x y C) OFF t) s).
    rewrite assign_twice_same, Hset, list_insert_id by exact Hv.
    now rewrite store_deref.
Qed.

Lemma set_unset_round_trip_witness :
  0 <= 0 < 3 /\ 0 <= 1 < 3 /\
  cell 3 (deref blinker_board (current_grid_ blinker_board)) 0 1 = Some OFF /\
  (setCell 3 0 1 ;;; unsetCell 3 0 1) blinker_board = Some (tt, blinker_board).
Proof.
  assert (0 <= 0 < 3) as Hx by lia.
  assert (0 <= 1 < 3) as Hy by lia.
  assert (cell 3 (deref blinker_board (current_grid_ blinker_board)) 0 1
          = Some OFF) as Hv by reflexivity.
  repeat (split; [assumption |]).
  exact (set_unset_round_trip 3 3 blinker_board 0 1 OFF Hx Hy Hv).
Defined.

(** X6. Assignments to two different in-range cells of a well-formed board
    commute: the object is the same whichever of the two calls comes
    first, for [setCell] and [unsetCell] in any combination. *)
Theorem assignments_commute C R s x y x' y' :
  wf C R s ->
  0 <= x < C -> 0 <= y < R -> 0 <= x' < C -> 0 <= y' < R ->
  (x, y) <> (x', y') ->
  (setCell C x y ;;; setCell C x' y') s = (setCell C x' y' ;;; setCell C x y) s /\
  (setCell C x y ;;; unsetCell C x' y') s = (unsetCell C x' y' ;;; setCell C x y) s /\
  (unsetCell C x y ;;; unsetCell C x' y') s
  = (unsetCell C x' y' ;;; unsetCell C x y) s.
Proof.
  intros Hwf Hx Hy Hx' Hy' Hne.
  pose proof (convert_indices_range C R x y Hx Hy) as Hi.
  pose proof (convert_indices_range C R x' y' Hx' Hy') as Hj.
  pose proof (wf_length C R s (current_grid_ s) Hwf) as Hlen.
  assert (Z.to_nat (convert_indices x y C) <> Z.to_nat (convert_indices x' y' C))
    as Hij.
  { intros E. apply Z2Nat.inj in E; [| lia | lia].
    apply convert_indices_inj in E as [-> ->]; [| easy | easy]. now apply Hne. }
  assert (forall v w,
    bind (fun t => vec_set (current_grid_ t) (convert_indices x y C) v t)
         (fun _ t => vec_set (current_grid_ t) (convert_indices x' y' C) w t) s
    = bind (fun t => vec_set (current_grid_ t) (convert_indices x' y' C) w t)
           (fun _ t => vec_set (current_grid_ t) (convert_indices x y C) v t) s)
    as H.
  { intros v w. rewrite !assign_twice by lia.
    now rewrite list_insert_insert_ne by (symmetry; exact Hij). }
  repeat split; apply H.
Qed.

Lemma assignments_commute_witness :
  wf 3 3 blinker_board /\
  0 <= 0 < 3 /\ 0 <= 1 < 3 /\ 0 <= 2 < 3 /\ 0 <= 2 < 3 /\
  (0, 1) <> (2, 2) /\
  (setCell 3 0 1 ;;; setCell 3 2 2) blinker_board
  = (setCell 3 2 2 ;;; setCell 3 0 1) blinker_board /\
  (setCell 3 0 1 ;;; unsetCell 3 2 2) blinker_board
  = (unsetCell 3 2 2 ;;; setCell 3 0 1) blinker_board /\
  (unsetCell 3 0 1 ;;; unsetCell 3 2 2) blinker_board
  = (unsetCell 3 2 2 ;;; unsetCell 3 0 1) blinker_board.
Proof.
  assert (wf 3 3 blinker_board) as Hwf by (repeat split; reflexivity).
  assert (0 <= 0 < 3) as H0 by lia.
  assert (0 <= 1 < 3) as H1 by lia.
  assert (0 <= 2 < 3) as H2 by lia.
  assert ((0, 1) <> (2, 2) :> Z * Z) as Hne by discriminate.
  repeat (split; [assumption |]).
  exact (assignments_commute 3 3 blinker_board 0 1 2 2 Hwf H0 H1 H2 H2 Hne).
Defined.

(** ** Sequences of calls *)

(** A call that meets its precondition returns and keeps the invariant. *)
Lemma do_call_safe C R c s :
  0 < C -> 0 < R -> wf C R s -> in_range C R c ->
  exists s', do_call C R c s = Some (tt, s') /\ wf C R s'.
Proof.
  intros HC HR Hwf Hc. destruct c as [x y | x y | | | | |]; cbn [do_call in_range] in *.
  - destruct Hc as [Hx Hy].
    destruct (vec_set_cell_assigned C R s x y ON Hwf Hx Hy) as (s' & E & _).
    exists s'. split; [exact E |]. now apply (setCell_wf C R x y s).
  - destruct Hc as [Hx Hy].
    destruct (vec_set_cell_assigned C R s x y OFF Hwf Hx Hy) as (s' & E & _).
    exists s'. split; [exact E |]. now apply (unsetCell_wf C R x y s).
  - exists (cleared C R s). split; [| now apply wf_cleared].
    destruct Hwf as (_ & H1 & H2 & _). apply clear_spec; [nia | easy | easy].
  - eexists. split; [reflexivity |]. exact Hwf.
  - destruct (pause_ s) eqn:Hp.
    + exists s. split; [now apply update_paused | exact Hwf].
    + exists (stepped C R s). split; [now apply update_stepped | now apply stepped_wf].
  - exists s. split; [reflexivity | exact Hwf].
  - exists s. split; [reflexivity | exact Hwf].
Qed.

(** X7. For positive dimensions whose product fits in an [int], and
    starting from the constructor, a client that only passes in-range
    coordinates can make any sequence of calls: every call returns (no
    access outside a vector), the class invariant holds at the end, the
    grid shown by [getGrid] still has [C * R] cells and [getSize] still
    answers [(C, R)]. *)
Theorem api_safe C R cs :
  0 < C -> 0 < R -> C * R <= INT_MAX -> Forall (in_range C R) cs ->
  exists s0 s',
    ConwaysGameOfLife C R = Some s0 /\
    run C R cs s0 = Some (tt, s') /\
    wf C R s' /\
    length (deref s' (current_grid_ s')) = Z.to_nat (C * R) /\
    getSize s' = Some ((C, R), s').
Proof.
  intros HC HR Hmax Hcs.
  assert (forall s, wf C R s ->
            exists s', run C R cs s = Some (tt, s') /\ wf C R s') as Hrun.
  { induction Hcs as [| c cs Hc _ IH]; intros s Hwf.
    - exists s. split; [reflexivity | exact Hwf].
    - destruct (do_call_safe C R c s HC HR Hwf Hc) as (t & Et & Ht).
      destruct (IH t Ht) as (s' & Es' & Hs').
      exists s'. split; [| exact Hs'].
      cbn [run]. now rewrite (bind_Some _ _ s tt t Et). }
  destruct (Hrun _ (wf_constructed C R)) as (s' & E & Hwf).
  exists (constructed C R), s'.
  split; [apply ConwaysGameOfLife_spec; nia |].
  split; [exact E |]. split; [exact Hwf |].
  split; [now apply wf_length |].
  unfold getSize, gets. now destruct Hwf as (-> & _).
Qed.

Lemma api_safe_witness :
  0 < 3 /\ 0 < 3 /\ 3 * 3 <= INT_MAX /\
  Forall (in_range 3 3) [SetCell 1 1; TogglePause; Update; GetGrid; Clear] /\
  exists s0 s',
    ConwaysGameOfLife 3 3 = Some s0 /\
    run 3 3 [SetCell 1 1; TogglePause; Update; GetGrid; Clear] s0 = Some (tt, s') /\
    wf 3 3 s' /\
    length (deref s' (current_grid_ s')) = Z.to_nat (3 * 3) /\
    getSize s' = Some ((3, 3), s').
Proof.
  assert (0 < 3) as H3 by lia.
  assert (Forall (in_range 3 3) [SetCell 1 1; TogglePause; Update; GetGrid; Clear])
    as Hcs by (repeat constructor; lia).
  assert (3 * 3 <= INT_MAX) as Hmax by (unfold INT_MAX; lia).
  repeat (split; [assumption |]).
  exact (api_safe 3 3 _ H3 H3 Hmax Hcs).
Defined.

(** X8. [togglePause] returns with the paused flag negated and everything
    else as it was, and a second call gives the object back; on a
    well-formed board it decides what the next [update] does: nothing when
    the board was running, one generation when it was paused. *)
Theorem togglePause_gates_update C R s :
  0 < C -> 0 < R -> wf C R s ->
  exists t,
    togglePause s = Some (tt, t) /\
    pause_ t = negb (pause_ s) /\
    size_ t = size_ s /\ grid1_ t = grid1_ s /\ grid2_ t = grid2_ s /\
    grid_ t = grid_ s /\ current_grid_ t = current_grid_ s /\
    next_grid_ t = next_grid_ s /\
    togglePause t = Some (tt, s) /\
    (pause_ s = false -> update C R t = Some (tt, t)) /\
    (pause_ s = true ->
     exists u, update C R t = Some (tt, u) /\
               deref u (current_grid_ u)
               = next_gen C R (deref s (current_grid_ s))).
Proof.
  intros HC HR Hwf. eexists. split; [reflexivity |].
  cbn [pause_ size_ grid1_ grid2_ grid_ current_grid_ next_grid_].
  repeat (split; [reflexivity |]).
  split.
  { unfold togglePause, modify. cbn. rewrite negb_involutive. now destruct s. }
  split; intros Hp.
  - apply update_paused. cbn. now rewrite Hp.
  - eexists. split.
    + apply update_stepped; [assumption | assumption | exact Hwf | cbn; now rewrite Hp].
    + rewrite stepped_current by exact Hwf. reflexivity.
Qed.

Lemma togglePause_gates_update_witness :
  0 < 3 /\ 0 < 3 /\ wf 3 3 blinker_board /\
  exists t,
    togglePause blinker_board = Some (tt, t) /\
    pause_ t = negb (pause_ blinker_board) /\
    size_ t = size_ blinker_board /\ grid1_ t = grid1_ blinker_board /\
    grid2_ t = grid2_ blinker_board /\
    grid_ t = grid_ blinker_board /\
    current_grid_ t = current_grid_ blinker_board /\
    next_grid_ t = next_grid_ blinker_board /\
    togglePause t = Some (tt, blinker_board) /\
    (pause_ blinker_board = false -> update 3 3 t = Some (tt, t)) /\
    (pause_ blinker_board = true ->
     exists u, update 3 3 t = Some (tt, u) /\
               deref u (current_grid_ u)
               = next_gen 3 3 (deref blinker_board (current_grid_ blinker_board))).
Proof.
  assert (0 < 3) as H3 by lia.
  assert (wf 3 3 blinker_board) as Hwf by (repeat split; reflexivity).
  repeat (split; [assumption |]).
  exact (togglePause_gates_update 3 3 blinker_board H3 H3 Hwf).
Defined.

(** ** Views of the grid *)

Lemma generations_succ C R n s :
  generations C R (S n) s = stepped C R (generations C R n s).
Proof.
  revert s. induction n as [| n IH]; intros s; [reflexivity |].
  cbn [generations] in *. now rewrite IH.
Qed.

(** X9. The pointer [getGrid] returns is not a snapshot. Held across [n]
    unpaused calls of [update], the vector it points to shows generation
    [n] when [n] is even and generation [n - 1] when [n] is odd: one call
    leaves it alone, the second writes the new generation into it. *)
Theorem held_view_after_steps C R s n :
  0 < C -> 0 < R -> wf C R s -> pause_ s = false ->
  exists p s',
    getGrid s = Some (p, s) /\
    steps C R n s = Some (tt, s') /\
    deref s' p
    = next_gens C R (if Nat.even n then n else (n - 1)%nat) (deref s p).
Proof.
  intros HC HR Hwf Hp. exists (current_grid_ s), (generations C R n s).
  split; [reflexivity |]. split; [now apply steps_spec |].
  destruct (Nat.even n) eqn:En.
  - destruct (generations_pointers C R n s Hwf) as [Ec _]. rewrite En in Ec.
    rewrite <- Ec at 1. now apply generations_current.
  - destruct n as [| m]; [discriminate |].
    rewrite Nat.even_succ, <- Nat.negb_even in En.
    apply negb_false_iff in En.
    replace (S m - 1)%nat with m by lia.
    rewrite generations_succ.
    pose proof (generations_wf C R m s Hwf) as Hwfm.
    destruct (generations_pointers C R m s Hwf) as [Ec _]. rewrite En in Ec.
    destruct (stepped_pointers C R _ Hwfm) as (_ & _ & _ & E).
    rewrite Ec in E. rewrite E. rewrite <- Ec at 1.
    now apply generations_current.
Qed.

Lemma held_view_after_steps_witness :
  0 < 3 /\ 0 < 3 /\ wf 3 3 blinker_board /\ pause_ blinker_board = false /\
  exists p s',
    getGrid blinker_board = Some (p, blinker_board) /\
    steps 3 3 3 blinker_board = Some (tt, s') /\
    deref s' p
    = next_gens 3 3 (if Nat.even 3 then 3 else (3 - 1)%nat) (deref blinker_board p).
Proof.
  assert (0 < 3) as H3 by lia.
  assert (wf 3 3 blinker_board) as Hwf by (repeat split; reflexivity).
  assert (pause_ blinker_board = false) as Hp by reflexivity.
  repeat (split; [assumption |]).
  exact (held_view_after_steps 3 3 blinker_board 3 H3 H3 Hwf Hp).
Defined.

(** X10. What [getGrid] shows after any number of unpaused calls of
    [update] depends on the grid shown at the start only: stale cells of
    the other vector, and which of the two vectors is current, make no
    difference. *)
Theorem stale_cells_never_show C R s t n :
  0 < C -> 0 < R -> wf C R s -> wf C R t ->
  pause_ s = false -> pause_ t = false ->
  deref s (current_grid_ s) = deref t (current_grid_ t) ->
  exists s' t',
    steps C R n s = Some (tt, s') /\
    steps C R n t = Some (tt, t') /\
    deref s' (current_grid_ s') = deref t' (current_grid_ t').
Proof.
  intros HC HR Hs Ht Hps Hpt E.
  exists (generations C R n s), (generations C R n t).
  split; [now apply steps_spec |]. split; [now apply steps_spec |].
  now rewrite !generations_current, E by assumption.
Qed.

Lemma stale_cells_never_show_witness :
  0 < 3 /\ 0 < 3 /\ wf 3 3 blinker_board /\ wf 3 3 blinker_board' /\
  pause_ blinker_board = false /\ pause_ blinker_board' = false /\
  deref blinker_board (current_grid_ blinker_board)
  = deref blinker_board' (current_grid_ blinker_board') /\
  exists s' t',
    steps 3 3 5 blinker_board = Some (tt, s') /\
    steps 3 3 5 blinker_board' = Some (tt, t') /\
    deref s' (current_grid_ s') = deref t' (current_grid_ t').
Proof.
  assert (0 < 3) as H3 by lia.
  assert (wf 3 3 blinker_board) as Hs by (repeat split; reflexivity).
  assert (wf 3 3 blinker_board') as Ht by (repeat split; reflexivity).
  assert (pause_ blinker_board = false) as Hps by reflexivity.
  assert (pause_ blinker_board' = false) as Hpt by reflexivity.
  assert (deref blinker_board (current_grid_ blinker_board)
          = deref blinker_board' (current_grid_ blinker_board')) as E
    by reflexivity.
  repeat (split; [assumption |]).
  exact (stale_cells_never_show 3 3 blinker_board blinker_board' 5
           H3 H3 Hs Ht Hps Hpt E).
Defined.

(** ** Crowded and degenerate boards *)

Lemma toroidal_count_all_on C R x y :
  0 < C -> 0 < R ->
  toroidal_count C R (replicate (Z.to_nat (C * R)) ON) x y = 8.
Proof.
  intros HC HR.
  assert (forall u v,
            alive_at C (replicate (Z.to_nat (C * R)) ON) (u `mod` C) (v `mod` R) = 1)
    as H.
  { intros u v. unfold alive_at, cell.
    pose proof (Z.mod_pos_bound u C HC) as Hu.
    pose proof (Z.mod_pos_bound v R HR) as Hv.
    pose proof (convert_indices_range C R _ _ Hu Hv).
    rewrite lookup_replicate_2 by lia. now rewrite decide_True. }
  unfold toroidal_count, neighbor_offsets. cbn [foldr fst snd].
  now rewrite !H.
Qed.

Lemma next_gen_all_on C R :
  0 < C -> 0 < R ->
  next_gen C R (replicate (Z.to_nat (C * R)) ON)
  = replicate (Z.to_nat (C * R)) OFF.
Proof.
  intros HC HR. apply list_eq. intros i. unfold next_gen.
  rewrite list_lookup_imap.
  destruct (decide (i < Z.to_nat (C * R))%nat) as [Hi | Hi].
  - rewrite !lookup_replicate_2 by exact Hi. cbn [fmap option_fmap option_map].
    now rewrite toroidal_count_all_on.
  - now rewrite !lookup_ge_None_2 by (rewrite length_replicate; lia).
Qed.

(** X11. Neighbours are counted with multiplicity, so whatever the
    dimensions a board whose cells are all [ON] gives every cell 8 live
    neighbours: one unpaused [update] returns with every cell of the new
    current grid [OFF]. *)
Theorem full_board_dies C R s :
  0 < C -> 0 < R -> wf C R s -> pause_ s = false ->
  deref s (current_grid_ s) = replicate (Z.to_nat (C * R)) ON ->
  (forall x y, 0 <= x < C -> 0 <= y < R ->
               countAliveNeighbors C R x y s = Some (8, s)) /\
  exists s', update C R s = Some (tt, s') /\
             deref s' (current_grid_ s') = replicate (Z.to_nat (C * R)) OFF.
Proof.
  intros HC HR Hwf Hp Hg. split.
  - intros x y Hx Hy.
    rewrite countAliveNeighbors_spec by (assumption || now apply wf_length).
    now rewrite Hg, toroidal_count_all_on.
  - exists (stepped C R s). split; [now apply update_stepped |].
    rewrite stepped_current by exact Hwf. rewrite Hg. now apply next_gen_all_on.
Qed.

Lemma full_board_dies_witness :
  0 < 2 /\ 0 < 3 /\ wf 2 3 full_board /\ pause_ full_board = false /\
  deref full_board (current_grid_ full_board) = replicate (Z.to_nat (2 * 3)) ON /\
  (forall x y, 0 <= x < 2 -> 0 <= y < 3 ->
               countAliveNeighbors 2 3 x y full_board = Some (8, full_board)) /\
  exists s', update 2 3 full_board = Some (tt, s') /\
             deref s' (current_grid_ s') = replicate (Z.to_nat (2 * 3)) OFF.
Proof.
  assert (0 < 2) as H2 by lia.
  assert (0 < 3) as H3 by lia.
  assert (wf 2 3 full_board) as Hwf by (repeat split; reflexivity).
  assert (pause_ full_board = false) as Hp by reflexivity.
  assert (deref full_board (current_grid_ full_board)
          = replicate (Z.to_nat (2 * 3)) ON) as Hg by reflexivity.
  repeat (split; [assumption |]).
  exact (full_board_dies 2 3 full_board H2 H3 Hwf Hp Hg).
Defined.

Lemma for_iter_skip n i (body : Z -> unit -> M unit) s :
  (forall j, body j tt s = Some (tt, s)) ->
  for_iter n i body tt s = Some (tt, s).
Proof.
  intros H. rewrite (for_iter_pure (fun _ u => u)).
  - now destruct (iter_pure n i _ tt).
  - intros j [] _. apply H.
Qed.

(** X12. With no column or no row the loops of [update] have nothing to
    visit: an unpaused call reads and writes no cell and only exchanges the
    roles of the two vectors. *)
Theorem update_without_cells C R s :
  C <= 0 \/ R <= 0 -> pause_ s = false ->
  update C R s = Some (tt, swap_grids s).
Proof.
  intros Hdim Hp. unfold update. rewrite bind_gets, Hp.
  unfold bind, for_range.
  destruct (decide (C <= 0)) as [HC | HC].
  - now replace (Z.to_nat (C - 0)) with 0%nat by lia.
  - replace (Z.to_nat (R - 0)) with 0%nat by lia.
    now rewrite for_iter_skip.
Qed.

Lemma update_without_cells_witness :
  (0 <= 0 \/ 3 <= 0) /\ pause_ empty_board = false /\
  update 0 3 empty_board = Some (tt, swap_grids empty_board).
Proof.
  assert (0 <= 0 \/ 3 <= 0) as Hdim by (left; lia).
  assert (pause_ empty_board = false) as Hp by reflexivity.
  repeat (split; [assumption |]).
  exact (update_without_cells 0 3 empty_board Hdim Hp).
Defined.

(** ** The torus has no origin *)

Section Shifting.

Variables C R : Z.
Hypothesis HC : 0 < C.
Hypothesis HR : 0 < R.
Variables dx dy : Z.

Lemma shift_length (g : list CellState) :
  length (shift C R dx dy g) = length g.
Proof. unfold shift. apply length_imap. Qed.

Lemma cell_shift (g : list CellState) x y :
  length g = Z.to_nat (C * R) -> 0 <= x < C -> 0 <= y < R ->
  cell C (shift C R dx dy g) x y
  = cell C g ((x - dx) `mod` C) ((y - dy) `mod` R).
Proof.
  intros Hlen Hx Hy. unfold shift, cell at 1. rewrite list_lookup_imap.
  pose proof (convert_indices_range C R x y Hx Hy) as Hidx.
  destruct (cell_is_Some C R g x y Hlen Hx Hy) as [c Hc].
  unfold cell in Hc. rewrite Hc. cbn [fmap option_fmap option_map].
  rewrite Z2Nat.id by lia.
  rewrite convert_indices_mod, convert_indices_div by lia.
  destruct (cell_is_Some C R g ((x - dx) `mod` C) ((y - dy) `mod` R) Hlen)
    as [c' Hc']; [now apply Z.mod_pos_bound | now apply Z.mod_pos_bound |].
  now rewrite Hc'.
Qed.

Lemma toroidal_count_shift (g : list CellState) x y :
  length g = Z.to_nat (C * R) ->
  toroidal_count C R (shift C R dx dy g) x y
  = toroidal_count C R g ((x - dx) `mod` C) ((y - dy) `mod` R).
Proof.
  intros Hlen.
  assert (forall d e,
    alive_at C (shift C R dx dy g) ((x + d) `mod` C) ((y + e) `mod` R)
    = alive_at C g (((x - dx) `mod` C + d) `mod` C)
                   (((y - dy) `mod` R + e) `mod` R)) as H.
  { intros d e. unfold alive_at.
    rewrite cell_shift by (assumption || now apply Z.mod_pos_bound).
    rewrite !Zminus_mod_idemp_l, !Zplus_mod_idemp_l.
    replace (x + d - dx) with (x - dx + d) by lia.
    now replace (y + e - dy) with (y - dy + e) by lia. }
  unfold toroidal_count, neighbor_offsets. cbn [foldr fst snd].
  now rewrite !H.
Qed.

(** The next generation of a moved grid is the moved next generation. *)
Lemma next_gen_shift (g : list CellState) :
  length g = Z.to_nat (C * R) ->
  next_gen C R (shift C R dx dy g) = shift C R dx dy (next_gen C R g).
Proof.
  intros Hlen. symmetry. apply next_gen_unique; try assumption.
  - now rewrite shift_length.
  - now rewrite shift_length, next_gen_length.
  - intros x y Hx Hy.
    rewrite cell_shift by (rewrite ?next_gen_length; assumption).
    rewrite next_gen_cell by now apply Z.mod_pos_bound.
    unfold next_cell.
    rewrite cell_shift, toroidal_count_shift by assumption. reflexivity.
Qed.

Lemma next_gens_length n (g : list CellState) :
  length (next_gens C R n g) = length g.
Proof.
  revert g. induction n as [| n IH]; intros g; [reflexivity |].
  cbn [next_gens]. now rewrite IH, next_gen_length.
Qed.

Lemma next_gens_shift n (g : list CellState) :
  length g = Z.to_nat (C * R) ->
  next_gens C R n (shift C R dx dy g) = shift C R dx dy (next_gens C R n g).
Proof.
  revert g. induction n as [| n IH]; intros g Hlen; [reflexivity |].
  cbn [next_gens]. rewrite next_gen_shift by exact Hlen.
  apply IH. now rewrite next_gen_length.
Qed.

End Shifting.

(** X13. [update] commutes with moving the pattern around the torus: if
    the grid one running board shows is the grid of another moved by
    [(dx, dy)] (coordinates taken modulo the dimensions), then after any
    number of calls of [update] on both it still is. *)
Theorem update_commutes_with_shift C R dx dy s t n :
  0 < C -> 0 < R -> wf C R s -> wf C R t ->
  pause_ s = false -> pause_ t = false ->
  deref t (current_grid_ t) = shift C R dx dy (deref s (current_grid_ s)) ->
  exists s' t',
    steps C R n s = Some (tt, s') /\
    steps C R n t = Some (tt, t') /\
    deref t' (current_grid_ t') = shift C R dx dy (deref s' (current_grid_ s')).
Proof.
  intros HC HR Hs Ht Hps Hpt E.
  exists (generations C R n s), (generations C R n t).
  split; [now apply steps_spec |]. split; [now apply steps_spec |].
  rewrite !generations_current, E by assumption.
  apply next_gens_shift; try assumption. now apply wf_length.
Qed.

Lemma update_commutes_with_shift_witness :
  0 < 3 /\ 0 < 3 /\ wf 3 3 blinker_board /\ wf 3 3 shifted_blinker_board /\
  pause_ blinker_board = false /\ pause_ shifted_blinker_board = false /\
  deref shifted_blinker_board (current_grid_ shifted_blinker_board)
  = shift 3 3 1 2 (deref blinker_board (current_grid_ blinker_board)) /\
  exists s' t',
    steps 3 3 3 blinker_board = Some (tt, s') /\
    steps 3 3 3 shifted_blinker_board = Some (tt, t') /\
    deref t' (current_grid_ t')
    = shift 3 3 1 2 (deref s' (current_grid_ s')).
Proof.
  assert (0 < 3) as H3 by lia.
  assert (wf 3 3 blinker_board) as Hs by (repeat split; reflexivity).
  assert (wf 3 3 shifted_blinker_board) as Ht by (repeat split; reflexivity).
  assert (pause_ blinker_board = false) as Hps by reflexivity.
  assert (pause_ shifted_blinker_board = false) as Hpt by reflexivity.
  assert (deref shifted_blinker_board (current_grid_ shifted_blinker_board)
          = shift 3 3 1 2 (deref blinker_board (current_grid_ blinker_board)))
    as E by reflexivity.
  repeat (split; [assumption |]).
  exact (update_commutes_with_shift 3 3 1 2 blinker_board shifted_blinker_board 3
           H3 H3 Hs Ht Hps Hpt E).
Defined.

(** ** Clearing again *)

(** X14. On a well-formed board [clear] returns, touches neither the
    paused flag nor the roles of the two vectors nor the size, and is
    idempotent: a second [clear] changes nothing. *)
Theorem clear_frame_idempotent C R s :
  0 < C -> 0 < R -> wf C R s ->
  exists s1,
    clear C R s = Some (tt, s1) /\
    pause_ s1 = pause_ s /\ grid_ s1 = grid_ s /\
    current_grid_ s1 = current_grid_ s /\ next_grid_ s1 = next_grid_ s /\
    size_ s1 = size_ s /\
    clear C R s1 = Some (tt, s1).
Proof.
  intros HC HR Hwf. exists (cleared C R s).
  assert (0 <= C * R) as HCR by nia.
  split.
  { destruct Hwf as (_ & H1 & H2 & _). now apply clear_spec. }
  repeat (split; [reflexivity |]).
  rewrite clear_spec; [reflexivity | exact HCR | |]; apply length_replicate.
Qed.

Lemma clear_frame_idempotent_witness :
  0 < 3 /\ 0 < 3 /\ wf 3 3 blinker_board /\
  exists s1,
    clear 3 3 blinker_board = Some (tt, s1) /\
    pause_ s1 = pause_ blinker_board /\ grid_ s1 = grid_ blinker_board /\
    current_grid_ s1 = current_grid_ blinker_board /\
    next_grid_ s1 = next_grid_ blinker_board /\
    size_ s1 = size_ blinker_board /\
    clear 3 3 s1 = Some (tt, s1).
Proof.
  assert (0 < 3) as H3 by lia.
  assert (wf 3 3 blinker_board) as Hwf by (repeat split; reflexivity).
  repeat (split; [assumption |]).
  exact (clear_frame_idempotent 3 3 blinker_board H3 H3 Hwf).
Defined.

(** ** Empty grids *)

(** X15. No cell is born on an empty grid: when every cell of the current
    grid of a well-formed running board is [OFF], it is so after any
    number of calls of [update], whatever stale cells the other vector
    holds. *)
Theorem extinction_is_final C R s n :
  0 < C -> 0 < R -> wf C R s -> pause_ s = false ->
  deref s (current_grid_ s) = replicate (Z.to_nat (C * R)) OFF ->
  exists s',
    steps C R n s = Some (tt, s') /\
    deref s' (current_grid_ s') = replicate (Z.to_nat (C * R)) OFF.
Proof.
  intros HC HR Hwf Hp Hg. exists (generations C R n s).
  split; [now apply steps_spec |].
  rewrite generations_current, Hg by exact Hwf.
  apply next_gens_fixed, next_gen_all_off.
Qed.

Lemma extinction_is_final_witness :
  0 < 3 /\ 0 < 3 /\ wf 3 3 stale_board /\ pause_ stale_board = false /\
  deref stale_board (current_grid_ stale_board)
  = replicate (Z.to_nat (3 * 3)) OFF /\
  exists s',
    steps 3 3 4 stale_board = Some (tt, s') /\
    deref s' (current_grid_ s') = replicate (Z.to_nat (3 * 3)) OFF.
Proof.
  assert (0 < 3) as H3 by lia.
  assert (wf 3 3 stale_board) as Hwf by (repeat split; reflexivity).
  assert (pause_ stale_board = false) as Hp by reflexivity.
  assert (deref stale_board (current_grid_ stale_board)
          = replicate (Z.to_nat (3 * 3)) OFF) as Hg by reflexivity.
  repeat (split; [assumption |]).
  exact (extinction_is_final 3 3 stale_board 4 H3 H3 Hwf Hp Hg).
Defined.
